(** * Tariff calculator: the evaluation engine of [core/services]

    A shallow embedding of [calc.py] ([_safe_eval], [_parse_rate],
    [_select_rate_value], [calculate_bill], [upsert_calc_run]),
    [timeband.py] ([_in_date_ranges], [assign_band]) and [checksum.py]
    ([compute_checksum]), and the properties of the engine proved on it.

    Conventions of the embedding.
    - Python [float]s are modelled by the rationals they denote ([Q]):
      arithmetic is exact, the rounding of binary64 is outside the model.
      Numbers are compared with [Qeq] where their representation may differ.
    - Python exceptions are values of [exn]; a computation that may raise
      lives in [result].  [try ... except Exception] is a match on [Raise].
    - Text is ASCII: [str.lower] and [str.strip] act on ASCII letters and
      ASCII white space.
    - The tariff document (a JSON object read with [dict.get]) is a record
      whose optional keys are [option] fields.  A date string of the
      document is carried as what [datetime.strptime(_, "%Y-%m-%d")] makes of
      it, and a formula as what [ast.parse(_, mode='eval')] makes of it.
    - The interpreter is a CPython that still has [ast.Num] (3.8 to 3.13). *)

From Stdlib Require Import ZArith QArith Qround Qabs Lia Ascii.
From stdpp Require Import base option list gmap strings sorting.

Set Warnings "-register-all".

Local Open Scope Z_scope.

(** ** Exceptions and the error monad *)

Inductive exn : Type :=
| ValueError (msg : string)
| TypeError
| ZeroDivisionError
| OverflowError
| OtherError (name : string).

Inductive result (A : Type) : Type :=
| Ok (a : A)
| Raise (e : exn).
Arguments Ok {A} a.
Arguments Raise {A} e.

Definition result_bind {A B} (f : A → result B) (m : result A) : result B :=
  match m with
  | Ok a => f a
  | Raise e => Raise e
  end.

#[global] Instance result_ret : MRet result := fun A a => Ok a.
#[global] Instance result_mbind : MBind result := fun A B f m => result_bind f m.

Definition raises {A} (m : result A) : Prop := ∃ e, m = Raise e.

(** ** Python objects that a formula can denote *)

Inductive value : Type :=
| VInt (n : Z)
| VFloat (x : Q)
| VBool (b : bool)
| VStr (s : string)
| VNone
| VFunc (name : string)     (* the function stored under [name] in [allowed_funcs] *)
| VModule                   (* the [math] module object *)
| VObject (repr : string).  (* any other object: complex, bytes, Ellipsis, ... *)

(** ** The syntax trees of [ast.parse(expr, mode='eval')] *)

Module ast.

Inductive operator : Type :=
| Add | Sub | Mult | MatMult | Div | Mod | Pow
| LShift | RShift | BitOr | BitXor | BitAnd | FloorDiv.

Inductive unaryop : Type := Invert | Not | UAdd | USub.

Inductive cmpop : Type :=
| Eq | NotEq | Lt | LtE | Gt | GtE | Is | IsNot | In | NotIn.

Inductive boolop : Type := And | Or.

(** The node kinds [_eval] has a case for come first; the kinds after
    [BoolOp] are those it has no case for. *)
Inductive node : Type :=
| Expression (body : node)
| Constant (v : value)                       (* also the legacy [ast.Num] *)
| BinOp (left : node) (op : operator) (right : node)
| UnaryOp (op : unaryop) (operand : node)
| Name (id : string)
| Call (func : node) (args : list node) (keywords : list (option string * node))
| IfExp (test body orelse : node)
| Compare (left : node) (ops : list cmpop) (comparators : list node)
| BoolOp (op : boolop) (values : list node)
| Attribute (v : node) (attr : string)
| Subscript (v : node) (slice : node)
| Lambda (body : node)
| ListComp (elt : node)
| SetComp (elt : node)
| DictComp (key : node) (val : node)
| GeneratorExp (elt : node)
| OtherNode (kind : string) (children : list node).

End ast.

(** ** The interpreter's primitives

    [_eval] hands operands to Python's operators and builtins.  Their
    semantics belongs to the interpreter, not to this repository, so the
    evaluator is written over a [runtime]; [py.cpython] further down is
    the instance used to run it. *)

Record runtime : Type := {
  py_add : value → value → result value;       (* left + right *)
  py_sub : value → value → result value;       (* left - right *)
  py_mul : value → value → result value;       (* left * right *)
  py_truediv : value → value → result value;   (* left / right *)
  py_mod : value → value → result value;       (* left % right *)
  py_pow : value → value → result value;       (* left ** right *)
  py_pos : value → result value;               (* +operand *)
  py_neg : value → result value;               (* -operand *)
  py_lt : value → value → result value;
  py_le : value → value → result value;
  py_gt : value → value → result value;
  py_ge : value → value → result value;
  py_eq : value → value → result value;
  py_ne : value → value → result value;
  py_truth : value → result bool;              (* bool(x), as [if], all(), any() use it *)
  py_call : value → list value → list (option string * value) → result value;
  py_float : value → result Q;                 (* float(x) *)
  math_callables : list string                 (* the public callables of [dir(math)] *)
}.

(** [all(xs)] and [any(xs)] over a list: the truth of each element is taken
    in order and the scan stops at the first decisive one. *)
Fixpoint py_all (rt : runtime) (xs : list value) : result bool :=
  match xs with
  | [] => Ok true
  | x :: xs' => b ← py_truth rt x; if b : bool then py_all rt xs' else Ok false
  end.

Fixpoint py_any (rt : runtime) (xs : list value) : result bool :=
  match xs with
  | [] => Ok false
  | x :: xs' => b ← py_truth rt x; if b : bool then Ok true else py_any rt xs'
  end.

(** ** calc.py: [_safe_eval] *)

Section SafeEval.

Context (rt : runtime).

(** The dictionary [allowed_funcs]: [min], [max], [round] and every
    callable of [math] whose name does not start with an underscore. *)
Definition allowed_funcs (name : string) : option value :=
  if bool_decide (name ∈ ["min"; "max"; "round"] ++ math_callables rt)
  then Some (VFunc name) else None.

Definition unsupported {A} : result A := Raise (ValueError "Unsupported expression").

(** One comparison of a chain. *)
Definition compare_op (op : ast.cmpop) (left right : value) : result value :=
  match op with
  | ast.Lt => py_lt rt left right
  | ast.LtE => py_le rt left right
  | ast.Gt => py_gt rt left right
  | ast.GtE => py_ge rt left right
  | ast.Eq => py_eq rt left right
  | ast.NotEq => py_ne rt left right
  | _ => Raise (ValueError "Comparison operator not allowed")
  end.

(** [for op, comparator in zip(node.ops, node.comparators)]: the body
    evaluates the comparator, appends the comparison to [results] and
    moves [left] on; [ev] is [_eval]. *)
Definition compare_loop (ev : ast.node → result value)
  : list ast.node → list ast.cmpop → value → list value → result (list value) :=
  fix loop comparators ops left results {struct comparators} :=
    match ops, comparators with
    | op :: ops', comparator :: comparators' =>
        right ← ev comparator;
        r ← compare_op op left right;
        loop comparators' ops' right (results ++ [r])
    | _, _ => Ok results
    end.

Section Eval.

Context (variables : gmap string value).

Fixpoint _eval (n : ast.node) : result value :=
  match n with
  | ast.Expression body => _eval body
  | ast.Constant v => Ok v
  | ast.BinOp l op r =>
      left ← _eval l;
      right ← _eval r;
      match op with
      | ast.Add => py_add rt left right
      | ast.Sub => py_sub rt left right
      | ast.Mult => py_mul rt left right
      | ast.Div => py_truediv rt left right
      | ast.Mod => py_mod rt left right
      | ast.Pow => py_pow rt left right
      | _ => unsupported
      end
  | ast.UnaryOp op e =>
      operand ← _eval e;
      match op with
      | ast.UAdd => py_pos rt operand
      | ast.USub => py_neg rt operand
      | _ => unsupported
      end
  | ast.Name id =>
      match variables !! id with
      | Some v => Ok v
      | None =>
          match allowed_funcs id with
          | Some f => Ok f
          | None =>
              if bool_decide (id = "math") then Ok VModule
              else Raise (ValueError "Use of name not allowed")
          end
      end
  | ast.Call f args keywords =>
      func ← _eval f;
      args' ← mapM _eval args;
      kwargs ← mapM (λ kw, v ← _eval kw.2; Ok (kw.1, v)) keywords;
      py_call rt func args' kwargs
  | ast.IfExp test body orelse =>
      cond ← _eval test;
      c ← py_truth rt cond;
      if c : bool then _eval body else _eval orelse
  | ast.Compare l ops comparators =>
      left ← _eval l;
      results ← compare_loop _eval comparators ops left [];
      b ← py_all rt results;
      Ok (VBool b)
  | ast.BoolOp op vs =>
      values ← mapM _eval vs;
      match op with
      | ast.And => b ← py_all rt values; Ok (VBool b)
      | ast.Or => b ← py_any rt values; Ok (VBool b)
      end
  | _ => unsupported
  end.

End Eval.

(** [expr] is given as the outcome of [ast.parse(expr, mode='eval')]:
    [None] when the parser raises (a syntax error, which includes every
    statement such as [import]), else the [Expression] tree. *)
Definition _safe_eval (parsed : option ast.node) (variables : gmap string value)
  : result Q :=
  match parsed with
  | None => Raise (ValueError "Invalid expression")
  | Some tree => v ← _eval variables tree; py_float rt v
  end.

End SafeEval.

(** ** Text: the [str] methods the engine uses *)

Module text.

Definition is_upper (c : ascii) : bool :=
  let n := Ascii.N_of_ascii c in (65 <=? n)%N && (n <=? 90)%N.

Definition lower_char (c : ascii) : ascii :=
  if is_upper c then Ascii.ascii_of_N (Ascii.N_of_ascii c + 32) else c.

(** [str.isspace] on one ASCII character: TAB, LF, VT, FF, CR, the four
    separators FS, GS, RS, US and the space. *)
Definition is_space (c : ascii) : bool :=
  let n := Ascii.N_of_ascii c in
  ((9 <=? n)%N && (n <=? 13)%N) || ((28 <=? n)%N && (n <=? 32)%N).

(** [s.lower()] *)
Fixpoint lower (s : string) : string :=
  match s with
  | EmptyString => EmptyString
  | String c s' => String (lower_char c) (lower s')
  end.

Fixpoint lstrip (s : string) : string :=
  match s with
  | EmptyString => EmptyString
  | String c s' => if is_space c then lstrip s' else s
  end.

Fixpoint rev_onto (s acc : string) : string :=
  match s with
  | EmptyString => acc
  | String c s' => rev_onto s' (String c acc)
  end.

Definition rev (s : string) : string := rev_onto s EmptyString.

Definition rstrip (s : string) : string := rev (lstrip (rev s)).

(** [s.strip()] *)
Definition strip (s : string) : string := rstrip (lstrip s).

(** [s.startswith(p)] *)
Definition startswith (s p : string) : bool := String.prefix p s.

(** [s.endswith(p)] *)
Definition endswith (s p : string) : bool := String.prefix (rev p) (rev s).

(** [s[n:]] *)
Fixpoint drop (n : nat) (s : string) : string :=
  match n, s with
  | O, _ => s
  | S n', String _ s' => drop n' s'
  | S _, EmptyString => EmptyString
  end.

(** [s1 <= s2] and [s1 < s2] on [str]: code points in lexicographic order. *)
Definition leb (s1 s2 : string) : bool := String.leb s1 s2.
Definition ltb (s1 s2 : string) : bool := String.ltb s1 s2.

Definition digit (n : Z) : ascii := Ascii.ascii_of_N (48 + Z.to_N (n mod 10)).

(** ["%02d" % n] and ["%04d" % n] for the ranges dates and times take. *)
Definition pad2 (n : Z) : string :=
  String (digit (n / 10)) (String (digit n) EmptyString).
Definition pad4 (n : Z) : string :=
  String (digit (n / 1000)) (String (digit (n / 100)) (pad2 n)).

End text.

(** ** [datetime.date], [datetime.datetime] and [calendar] *)

Record date : Type := { year : Z; month : Z; day : Z }.

Record datetime : Type := { dt_date : date; hour : Z; minute : Z; second : Z }.

Module cal.

(** [calendar.isleap] *)
Definition isleap (y : Z) : bool :=
  (y mod 4 =? 0) && (negb (y mod 100 =? 0) || (y mod 400 =? 0)).

(** [calendar.monthrange(y, m)[1]]: [mdays[m] + (m == February and isleap(y))].
    A [date] object always has its month in 1..12. *)
Definition month_days (y m : Z) : Z :=
  match m with
  | 1 | 3 | 5 | 7 | 8 | 10 | 12 => 31
  | 4 | 6 | 9 | 11 => 30
  | 2 => if isleap y then 29 else 28
  | _ => 0
  end.

Definition days_before_year (y : Z) : Z :=
  let y' := y - 1 in y' * 365 + y' / 4 - y' / 100 + y' / 400.

Fixpoint days_in_first_months (y : Z) (k : nat) : Z :=
  match k with
  | O => 0
  | S k' => days_in_first_months y k' + month_days y (Z.of_nat k)
  end.

Definition days_before_month (y m : Z) : Z :=
  days_in_first_months y (Z.to_nat (m - 1)).

(** [d.toordinal()]: 1 for 0001-01-01. *)
Definition toordinal (d : date) : Z :=
  days_before_year (year d) + days_before_month (year d) (month d) + day d.

(** [d.weekday()]: 0 for Monday. *)
Definition weekday (d : date) : Z := (toordinal d + 6) mod 7.

(** [(d2 - d1).days] *)
Definition days_between (d1 d2 : date) : Z := toordinal d2 - toordinal d1.

(** Dates and timestamps compare field by field, most significant first. *)
Definition date_cmp (a b : date) : comparison :=
  match year a ?= year b with
  | Eq => match month a ?= month b with
          | Eq => day a ?= day b
          | c => c
          end
  | c => c
  end.

Definition date_leb (a b : date) : bool :=
  match date_cmp a b with Gt => false | _ => true end.
Definition date_ltb (a b : date) : bool :=
  match date_cmp a b with Lt => true | _ => false end.

Definition datetime_cmp (a b : datetime) : comparison :=
  match date_cmp (dt_date a) (dt_date b) with
  | Eq => match hour a ?= hour b with
          | Eq => match minute a ?= minute b with
                  | Eq => second a ?= second b
                  | c => c
                  end
          | c => c
          end
  | c => c
  end.

Definition datetime_leb (a b : datetime) : bool :=
  match datetime_cmp a b with Gt => false | _ => true end.
Definition datetime_ltb (a b : datetime) : bool :=
  match datetime_cmp a b with Lt => true | _ => false end.

(** [ts.strftime("%a").lower()[:3]] in the C locale. *)
Definition day_abbr (d : date) : string :=
  match weekday d with
  | 0 => "mon" | 1 => "tue" | 2 => "wed" | 3 => "thu"
  | 4 => "fri" | 5 => "sat" | _ => "sun"
  end.

(** [ts.strftime("%H:%M")] *)
Definition strftime_HM (ts : datetime) : string :=
  text.pad2 (hour ts) +:+ ":" +:+ text.pad2 (minute ts).

(** [d.strftime("%Y-%m-%d")] *)
Definition strftime_Ymd (d : date) : string :=
  text.pad4 (year d) +:+ "-" +:+ text.pad2 (month d) +:+ "-" +:+ text.pad2 (day d).

(** [str(ts)] of a timestamp without microseconds. *)
Definition str_datetime (ts : datetime) : string :=
  strftime_Ymd (dt_date ts) +:+ " " +:+ text.pad2 (hour ts) +:+ ":"
    +:+ text.pad2 (minute ts) +:+ ":" +:+ text.pad2 (second ts).

End cal.

(** ** Numbers *)

Definition Qltb (x y : Q) : bool := negb (Qle_bool y x).

(** [round(x, 4)] on a float: the nearest multiple of 1/10000, ties to the
    even one. *)
Definition round_half_even (x : Q) : Z :=
  let f := Qfloor x in
  let r := (x - inject_Z f)%Q in
  match (r ?= 1 # 2)%Q with
  | Lt => f
  | Gt => f + 1
  | Eq => if Z.even f then f else f + 1
  end.

Definition round4 (x : Q) : Q := (inject_Z (round_half_even (x * 10000)) / 10000)%Q.

(** ** calc.py: [_parse_rate] *)

Definition _parse_rate (unit : option string) (value : Q) (days : Z)
    (billing_start : date) : Q :=
  match unit with
  | None => value
  | Some unit =>
      let unit := text.lower (text.strip unit) in
      let rate := value in
      let '(rate, unit) :=
        if text.startswith unit "c/"
        then ((rate / 100)%Q, text.drop 2 unit)
        else (rate, unit) in
      if text.endswith unit "/day" then rate
      else if text.endswith unit "/kwh" then rate
      else if text.endswith unit "/mth" || text.endswith unit "/month" then
        let month_days := cal.month_days (year billing_start) (month billing_start) in
        (rate * (inject_Z days / inject_Z month_days))%Q
      else if text.endswith unit "/meter/year" || text.endswith unit "/year" then
        (rate * (inject_Z days / 365))%Q
      else rate
  end.

(** ** calc.py: [_select_rate_value] *)

(** One tier of a [rate_schedule]: [{from?, to?, value?}]. *)
Record tier : Type := { t_from : option Q; t_to : option Q; t_value : option Q }.

(** [float(tier.get('value', 0.0))] *)
Definition tier_value (t : tier) : Q := default 0%Q (t_value t).

(** The three tests of the loop body, in the order the code makes them. *)
Definition tier_applies (t : tier) (usage : Q) : bool :=
  match t_from t, t_to t with
  | None, None => true
  | None, Some to => Qle_bool usage to
  | Some frm, None => Qle_bool frm usage
  | Some frm, Some to => Qle_bool frm usage && Qltb usage to
  end.

(** The [for tier in rate_schedule] loop with its [break]. *)
Fixpoint applicable (rate_schedule : list tier) (usage : Q) : option Q :=
  match rate_schedule with
  | [] => None
  | t :: rest =>
      let val := tier_value t in
      if tier_applies t usage then Some val else applicable rest usage
  end.

Definition _select_rate_value (rate_schedule : list tier) (usage : Q) : Q :=
  match rate_schedule with
  | [] => 0%Q
  | [t] => tier_value t
  | _ =>
      match applicable rate_schedule usage with
      | Some val => val
      | None => from_option tier_value 0%Q (last rate_schedule)
      end
  end.

(** ** The tariff document *)

(** [{from, to}] of a [date_ranges] entry or of a [season]; [None] is a
    missing key or a string [strptime] rejects: both raise inside the [try]. *)
Record date_window : Type := { w_from : option date; w_to : option date }.

(** [{from, to}] of a [times] entry, as the HH:MM strings of the document. *)
Record span : Type := { sp_from : option string; sp_to : option string }.

Record time_band : Type := {
  b_id : option string;
  b_days : list string;                       (* band.get("days", []) *)
  b_times : list span;                        (* band.get("times", []) *)
  b_date_ranges : option (list date_window)   (* band.get("date_ranges") *)
}.

Record component : Type := {
  c_id : option string;
  c_season : option date_window;
  c_applies_to : list string;                 (* comp.get('applies_to', []) *)
  c_rate_schedule : option (list tier);       (* [None]: the key is absent *)
  c_unit : option string;
  c_loss_factor : option value;
  c_calculation : option (option ast.node)
    (* [None]: absent or the empty string; [Some p]: a string that parses to [p] *)
}.

(** [canonical_json] *)
Record tariff : Type := {
  components : list component;                (* canonical.get("components", []) *)
  time_bands : list time_band                 (* canonical.get("time_bands", []) *)
}.

Definition empty_tariff : tariff := {| components := []; time_bands := [] |}.

(** ** timeband.py *)

Fixpoint _in_date_ranges (ts_date : date) (date_ranges : list date_window) : bool :=
  match date_ranges with
  | [] => false
  | r :: rest =>
      match w_from r, w_to r with
      | Some frm, Some to =>
          if cal.date_leb frm ts_date && cal.date_leb ts_date to then true
          else _in_date_ranges ts_date rest
      | _, _ => _in_date_ranges ts_date rest     (* except Exception: continue *)
      end
  end.

(** The [for span in band.get("times", [])] loop: does some span hold the
    time?  A span without [from] or [to] is passed over. *)
Fixpoint in_times (time_str : string) (times : list span) : bool :=
  match times with
  | [] => false
  | span :: rest =>
      match sp_from span, sp_to span with
      | Some start_time, Some end_time =>
          if text.leb start_time time_str && text.ltb time_str end_time then true
          else in_times time_str rest
      | _, _ => in_times time_str rest
      end
  end.

(** The [for band in ...] loop; each [continue] is a recursive call on the
    remaining bands. *)
Fixpoint assign_band_loop (ts_date : date) (day_abbr time_str : string)
    (bands : list time_band) : string :=
  match bands with
  | [] => "off_peak"
  | band :: rest =>
      let skip_dates :=
        match b_date_ranges band with
        | None | Some [] => false                (* [if date_ranges:] is false *)
        | Some date_ranges => negb (_in_date_ranges ts_date date_ranges)
        end in
      if skip_dates then assign_band_loop ts_date day_abbr time_str rest
      else
        let days_list := text.lower <$> b_days band in
        if bool_decide ("all" ∉ days_list) && bool_decide (day_abbr ∉ days_list)
        then assign_band_loop ts_date day_abbr time_str rest
        else if in_times time_str (b_times band)
        then default "off_peak" (b_id band)      (* band.get("id", "off_peak") *)
        else assign_band_loop ts_date day_abbr time_str rest
  end.

Definition assign_band (ts : datetime) (canonical : tariff) : string :=
  let ts_date := dt_date ts in
  let day_abbr := cal.day_abbr ts_date in
  let time_str := cal.strftime_HM ts in
  assign_band_loop ts_date day_abbr time_str (time_bands canonical).

(** ** The database, as far as the engine reads and writes it *)

Record tariff_version : Type := { canonical_json : option tariff }.

Record meter_reading : Type := {
  mr_customer_id : Z;
  mr_timestamp : datetime;
  kwh_used : Q
}.

Record entry : Type := { units_used : value; unit_label : string; cost : Q }.

(** The dict [calculate_bill] returns. *)
Record calc_result : Type := {
  total_cost : Q;
  breakdown : gmap string entry;
  units : string
}.

(** [result_summary_json] of a [calc_runs] row. *)
Record run_summary : Type := {
  meta_start : string;
  meta_end : string;
  meta_checksum : string;
  summary_result : calc_result
}.

Record calc_run : Type := {
  cr_id : Z;
  cr_customer_id : Z;
  cr_tariff_version_id : Z;
  cr_status : string;
  result_summary_json : option run_summary
}.

Record database : Type := {
  tariff_versions : gmap Z tariff_version;
  meter_reading_rows : list meter_reading;
  calc_runs : list calc_run
}.

(** [.order_by(MeterReading.timestamp.asc())]: rows of equal timestamp stay
    in table order. *)
Fixpoint insert_by_timestamp (r : meter_reading) (rows : list meter_reading)
  : list meter_reading :=
  match rows with
  | [] => [r]
  | x :: rows' =>
      if cal.datetime_leb (mr_timestamp r) (mr_timestamp x) then r :: rows
      else x :: insert_by_timestamp r rows'
  end.

Definition order_by_timestamp (rows : list meter_reading) : list meter_reading :=
  foldr insert_by_timestamp [] rows.

(** The query both [calculate_bill] and [compute_checksum] run. *)
Definition select_readings (db : database) (customer_id : Z) (start end_ : datetime)
  : list meter_reading :=
  order_by_timestamp
    (filter (λ r, mr_customer_id r = customer_id
                  ∧ cal.datetime_leb start (mr_timestamp r) = true
                  ∧ cal.datetime_ltb (mr_timestamp r) end_ = true)
       (meter_reading_rows db)).

(** ** calc.py: [calculate_bill] *)

(** The four running sums of the [for r in readings] loop. *)
Record usage_totals : Type := {
  total_usage : Q;
  peak_usage : Q;
  off_peak_usage : Q;
  shoulder_usage : Q
}.

Definition no_usage : usage_totals :=
  {| total_usage := 0; peak_usage := 0; off_peak_usage := 0; shoulder_usage := 0 |}.

Definition add_reading (canonical : tariff) (u : usage_totals) (r : meter_reading)
  : usage_totals :=
  let total := (total_usage u + kwh_used r)%Q in
  let band_id := assign_band (mr_timestamp r) canonical in
  let b := text.lower band_id in
  if bool_decide (b ∈ ["peak"; "usage_peak"; "retail_peak"; "network_peak"]) then
    {| total_usage := total; peak_usage := (peak_usage u + kwh_used r)%Q;
       off_peak_usage := off_peak_usage u; shoulder_usage := shoulder_usage u |}
  else if bool_decide (b ∈ ["shoulder"; "usage_shoulder"; "retail_shoulder";
                            "network_shoulder"]) then
    {| total_usage := total; peak_usage := peak_usage u;
       off_peak_usage := off_peak_usage u;
       shoulder_usage := (shoulder_usage u + kwh_used r)%Q |}
  else
    {| total_usage := total; peak_usage := peak_usage u;
       off_peak_usage := (off_peak_usage u + kwh_used r)%Q;
       shoulder_usage := shoulder_usage u |}.

Definition aggregate_usage (canonical : tariff) (readings : list meter_reading)
  : usage_totals :=
  foldl (add_reading canonical) no_usage readings.

(** [any(tag in applies for tag in tags)] *)
Definition any_in (tags applies : list string) : bool :=
  existsb (λ tag, bool_decide (tag ∈ applies)) tags.

(** The placeholders [max_kva] and [incentive_kva]. *)
Definition max_kva : Q := 0.
Definition incentive_kva : Q := 0.
Definition default_loss_factor : Q := 1.

Definition usage_for_tier (u : usage_totals) (applies : list string) : Q :=
  if any_in ["usage_peak"; "network_peak"] applies then peak_usage u
  else if any_in ["usage_offpeak"; "usage_off_peak"; "network_offpeak";
                  "network_off_peak"] applies then off_peak_usage u
  else if any_in ["usage_shoulder"; "shoulder_usage"; "network_shoulder"] applies
  then shoulder_usage u
  else if any_in ["usage_total"; "total_usage"; "usage_all"] applies then total_usage u
  else if bool_decide ("demand" ∈ applies) then max_kva
  else if bool_decide ("incentive_demand" ∈ applies) then incentive_kva
  else 0%Q.

(** [round(units_used, 4) if isinstance(units_used, float) else int(units_used)]
    together with the label. *)
Definition units_and_label (u : usage_totals) (days : Z) (applies : list string)
  : value * string :=
  if any_in ["usage_peak"; "network_peak"] applies
  then (VFloat (round4 (peak_usage u)), "kWh")
  else if any_in ["usage_offpeak"; "usage_off_peak"; "network_offpeak";
                  "network_off_peak"] applies
  then (VFloat (round4 (off_peak_usage u)), "kWh")
  else if any_in ["usage_shoulder"; "shoulder_usage"; "network_shoulder"] applies
  then (VFloat (round4 (shoulder_usage u)), "kWh")
  else if any_in ["usage_total"; "total_usage"; "usage_all"] applies
  then (VFloat (round4 (total_usage u)), "kWh")
  else if bool_decide ("demand" ∈ applies) then (VFloat (round4 max_kva), "kVA")
  else if bool_decide ("incentive_demand" ∈ applies)
  then (VFloat (round4 incentive_kva), "kVA")
  else if any_in ["fixed"; "meter"; "metering"; "ancillary"] applies
  then (VInt days, "days")
  else (VFloat (round4 (usage_for_tier u applies)), "unit").

Definition base_vars (u : usage_totals) (days : Z) (start end_ : datetime)
  : gmap string value :=
  list_to_map [
    ("total_usage", VFloat (total_usage u));
    ("peak_usage", VFloat (peak_usage u));
    ("off_peak_usage", VFloat (off_peak_usage u));
    ("shoulder_usage", VFloat (shoulder_usage u));
    ("network_peak_usage", VFloat (peak_usage u));
    ("network_off_peak_usage", VFloat (off_peak_usage u));
    ("network_total_usage", VFloat (total_usage u));
    ("max_kva", VFloat max_kva);
    ("incentive_kva", VFloat incentive_kva);
    ("days", VInt days);
    ("billing_period_start", VStr (cal.strftime_Ymd (dt_date start)));
    ("billing_period_end", VStr (cal.strftime_Ymd (dt_date end_)))
  ].

(** The season test: [true] when the [continue] under it runs. *)
Definition out_of_season (start end_ : datetime) (comp : component) : bool :=
  match c_season comp with
  | Some season =>
      match w_from season, w_to season with
      | Some from_date, Some to_date =>
          cal.date_ltb (dt_date end_) from_date || cal.date_ltb to_date (dt_date start)
      | _, _ => false                            (* except Exception: pass *)
      end
  | None => false
  end.

Definition loss_factor_of (comp : component) : value :=
  match c_loss_factor comp with
  | None | Some VNone | Some (VStr EmptyString) => VFloat default_loss_factor
  | Some v => v
  end.

Definition vars_for_expr (u : usage_totals) (days : Z) (start end_ : datetime)
    (comp : component) : gmap string value :=
  let applies := text.lower <$> c_applies_to comp in
  let rate_val :=
    _select_rate_value (default [] (c_rate_schedule comp)) (usage_for_tier u applies) in
  let rate_dollars := _parse_rate (c_unit comp) rate_val days (dt_date start) in
  <["loss_factor" := loss_factor_of comp]>
    (<["rate" := VFloat rate_dollars]> (base_vars u days start end_)).

(** The dict a finished call returns when no tariff version is found. *)
Definition no_tariff_bill : calc_result :=
  {| total_cost := 0; breakdown := ∅; units := "AUD" |}.

Section Billing.

Context (rt : runtime).

(** One turn of [for comp in components], on the pair
    [(breakdown, total_cost)] the loop updates. *)
Definition bill_component (u : usage_totals) (days : Z) (start end_ : datetime)
    (st : gmap string entry * Q) (comp : component) : gmap string entry * Q :=
  match c_id comp with
  | None => st
  | Some comp_id =>
      if bool_decide (comp_id = "") then st
      else if out_of_season start end_ comp then st
      else
        match c_calculation comp with
        | None => st
        | Some expr =>
            match _safe_eval rt expr (vars_for_expr u days start end_ comp) with
            | Raise _ => st                    (* except Exception: continue *)
            | Ok cost_float =>
                let applies := text.lower <$> c_applies_to comp in
                let '(units_used, unit_label) := units_and_label u days applies in
                (<[comp_id := {| units_used := units_used;
                                 unit_label := unit_label;
                                 cost := round4 cost_float |}]> st.1,
                 (st.2 + cost_float)%Q)
            end
        end
  end.

Definition bill_components (u : usage_totals) (days : Z) (start end_ : datetime)
    (comps : list component) : gmap string entry * Q :=
  foldl (bill_component u days start end_) (∅, 0%Q) comps.

Definition calculate_bill (db : database) (customer_id tariff_version_id : Z)
    (start end_ : datetime) : calc_result :=
  match tariff_versions db !! tariff_version_id with
  | None => no_tariff_bill
  | Some tv =>
      let canonical := default empty_tariff (canonical_json tv) in
      let readings := select_readings db customer_id start end_ in
      let days := Z.max 1 (cal.days_between (dt_date start) (dt_date end_)) in
      let u := aggregate_usage canonical readings in
      let '(breakdown, total_cost) :=
        bill_components u days start end_ (components canonical) in
      {| total_cost := round4 total_cost; breakdown := breakdown; units := "AUD" |}
  end.

End Billing.

(** ** checksum.py: [compute_checksum] *)

Section Checksum.

(** [hashlib.sha256] is kept abstract: [sha256_hexdigest bytes] is the
    hex digest of a hash object fed [bytes] by successive [update]s.  So
    are [repr] of the tariff document and [str] of a [Decimal]. *)
Context (sha256_hexdigest : string → string)
        (repr_json : tariff → string)
        (str_decimal : Q → string)
        (str_int : Z → string).

Definition compute_checksum (db : database) (customer_id tariff_version_id : Z)
    (start end_ : datetime) : string :=
  let tv := tariff_versions db !! tariff_version_id in
  let h := str_int tariff_version_id in
  let h :=
    match tv ≫= canonical_json with
    | Some canonical => h +:+ repr_json canonical
    | None => h
    end in
  let rows := select_readings db customer_id start end_ in
  let h :=
    foldl (λ h r, h +:+ cal.str_datetime (mr_timestamp r) +:+ str_decimal (kwh_used r))
      h rows in
  let h := h +:+ cal.str_datetime start +:+ cal.str_datetime end_ in
  sha256_hexdigest h.

End Checksum.

(** ** calc.py: [upsert_calc_run] *)

(** [.order_by(CalcRun.id.desc())...first()] over the rows of one customer
    and tariff version. *)
Definition latest_run (runs : list calc_run) (customer_id tariff_version_id : Z)
  : option calc_run :=
  foldl (λ best r,
    if bool_decide (cr_customer_id r = customer_id
                    ∧ cr_tariff_version_id r = tariff_version_id)
    then match best with
         | Some b => if cr_id b <? cr_id r then Some r else best
         | None => Some r
         end
    else best) None runs.

(** The key the database gives a new [calc_runs] row: above every key in
    the table. *)
Definition next_run_id (runs : list calc_run) : Z :=
  1 + foldr Z.max 0 (cr_id <$> runs).

Definition upsert_calc_run (db : database) (customer_id tariff_version_id : Z)
    (start end_ : datetime) (checksum : string) (res : calc_result) : Z * database :=
  let reusable :=
    match latest_run (calc_runs db) customer_id tariff_version_id with
    | Some row =>
        match result_summary_json row with
        | Some meta =>
            if bool_decide (meta_checksum meta = checksum
                            ∧ meta_start meta = cal.str_datetime start
                            ∧ meta_end meta = cal.str_datetime end_)
            then Some (cr_id row) else None
        | None => None
        end
    | None => None
    end in
  match reusable with
  | Some id => (id, db)
  | None =>
      let newrow :=
        {| cr_id := next_run_id (calc_runs db);
           cr_customer_id := customer_id;
           cr_tariff_version_id := tariff_version_id;
           cr_status := "completed";
           result_summary_json :=
             Some {| meta_start := cal.str_datetime start;
                     meta_end := cal.str_datetime end_;
                     meta_checksum := checksum;
                     summary_result := res |} |} in
      (cr_id newrow,
       {| tariff_versions := tariff_versions db;
          meter_reading_rows := meter_reading_rows db;
          calc_runs := calc_runs db ++ [newrow] |})
  end.

(** ** api/main.py: [calculate_and_store] *)

Record CalcStoreRequest : Type := {
  req_customer_id : Z;
  req_tariff_version_id : Z;
  req_start : datetime;
  req_end : datetime
}.

(** The response [{"calc_run_id": run_id, **result}] with the checksum that
    was computed on the way. *)
Record response : Type := {
  resp_checksum : string;
  resp_calc_run_id : Z;
  resp_result : calc_result
}.

Section Api.

Context (rt : runtime)
        (sha256_hexdigest : string → string)
        (repr_json : tariff → string)
        (str_decimal : Q → string)
        (str_int : Z → string).

Definition calculate_and_store (req : CalcStoreRequest) (db : database)
  : response * database :=
  let checksum :=
    compute_checksum sha256_hexdigest repr_json str_decimal str_int db
      (req_customer_id req) (req_tariff_version_id req) (req_start req) (req_end req) in
  let res :=
    calculate_bill rt db (req_customer_id req) (req_tariff_version_id req)
      (req_start req) (req_end req) in
  let '(run_id, db') :=
    upsert_calc_run db (req_customer_id req) (req_tariff_version_id req)
      (req_start req) (req_end req) checksum res in
  ({| resp_checksum := checksum; resp_calc_run_id := run_id; resp_result := res |},
   db').

End Api.

(** ** api/main.py: [get_bill] *)

Section GetBill.

Context (rt : runtime)
        (sha256_hexdigest : string → string)
        (repr_json : tariff → string)
        (str_decimal : Q → string)
        (str_int : Z → string).

(** The response [{"calc_run_id": ..., **result}] as the pair of the run id
    and the bill, with the database the handler leaves. *)
Definition get_bill (customer_id : Z) (start end_ : datetime) (tariff_version_id : Z)
    (db : database) : (Z * calc_result) * database :=
  let fallback :=
    let checksum :=
      compute_checksum sha256_hexdigest repr_json str_decimal str_int db
        customer_id tariff_version_id start end_ in
    let res := calculate_bill rt db customer_id tariff_version_id start end_ in
    let '(run_id, db') :=
      upsert_calc_run db customer_id tariff_version_id start end_ checksum res in
    ((run_id, res), db') in
  match latest_run (calc_runs db) customer_id tariff_version_id with
  | Some row =>
      match result_summary_json row with
      | Some summary => ((cr_id row, summary_result summary), db)
      | None => fallback
      end
  | None => fallback
  end.

End GetBill.

(** ** A runtime to run the evaluator with

    [py.cpython] gives the primitives on the numeric tower ([bool] within
    [int] within [float]), on [None], on whole strings, and on the builtins
    [min], [max], [round], [floor], [ceil], [trunc], [fabs].  What has no
    rational value or needs more of the object model (a power with a
    fractional exponent, printf-style [%] on a string with conversions,
    keyword arguments, iterables, the other [math] functions, [VObject])
    raises [outside_model]: the instance makes no statement there. *)

Module py.

Definition outside_model {A} : result A := Raise (OtherError "outside the model").

Inductive num : Type := NInt (n : Z) | NFloat (x : Q).

Definition num_of (v : value) : option num :=
  match v with
  | VInt n => Some (NInt n)
  | VBool b => Some (NInt (if b then 1 else 0))
  | VFloat x => Some (NFloat x)
  | _ => None
  end.

Definition Q_of (n : num) : Q :=
  match n with NInt n => inject_Z n | NFloat x => x end.

Definition is_object (v : value) : bool :=
  match v with VObject _ => true | _ => false end.

(** The exception of an operator on operands it does not take. *)
Definition bad_operands {A} (a b : value) : result A :=
  if is_object a || is_object b then outside_model else Raise TypeError.

Definition arith (fz : Z → Z → Z) (fq : Q → Q → Q) (a b : value) : result value :=
  match num_of a, num_of b with
  | Some (NInt x), Some (NInt y) => Ok (VInt (fz x y))
  | Some x, Some y => Ok (VFloat (Qred (fq (Q_of x) (Q_of y))))
  | _, _ => bad_operands a b
  end.

Fixpoint repeat_str (s : string) (n : nat) : string :=
  match n with O => EmptyString | S n' => s +:+ repeat_str s n' end.

Definition add (a b : value) : result value :=
  match a, b with
  | VStr s, VStr t => Ok (VStr (s +:+ t))
  | _, _ => arith Z.add Qplus a b
  end.

Definition sub (a b : value) : result value := arith Z.sub Qminus a b.

Definition mul (a b : value) : result value :=
  match a, num_of a, b, num_of b with
  | VStr s, _, _, Some (NInt n) => Ok (VStr (repeat_str s (Z.to_nat n)))
  | _, Some (NInt n), VStr s, _ => Ok (VStr (repeat_str s (Z.to_nat n)))
  | _, _, _, _ => arith Z.mul Qmult a b
  end.

Definition truediv (a b : value) : result value :=
  match num_of a, num_of b with
  | Some x, Some y =>
      if Qeq_bool (Q_of y) 0 then Raise ZeroDivisionError
      else Ok (VFloat (Qred (Q_of x / Q_of y)))
  | _, _ => bad_operands a b
  end.

Fixpoint has_percent (s : string) : bool :=
  match s with
  | EmptyString => false
  | String c s' => Ascii.eqb c "%"%char || has_percent s'
  end.

Definition mod_ (a b : value) : result value :=
  match a with
  | VStr s => if has_percent s || is_object b then outside_model else Raise TypeError
  | _ =>
      match num_of a, num_of b with
      | Some (NInt x), Some (NInt y) =>
          if y =? 0 then Raise ZeroDivisionError else Ok (VInt (x mod y))
      | Some x, Some y =>
          let '(p, q) := (Q_of x, Q_of y) in
          if Qeq_bool q 0 then Raise ZeroDivisionError
          else Ok (VFloat (Qred (p - q * inject_Z (Qfloor (p / q)))))
      | _, _ => bad_operands a b
      end
  end.

(** The integer an exponent denotes, if it denotes one. *)
Definition integral (n : num) : option Z :=
  match n with
  | NInt y => Some y
  | NFloat y => let y' := Qred y in
                if (Qden y' =? 1)%positive then Some (Qnum y') else None
  end.

Definition pow (a b : value) : result value :=
  match num_of a, num_of b with
  | Some (NInt x), Some (NInt y) =>
      if 0 <=? y then Ok (VInt (x ^ y))
      else if x =? 0 then Raise ZeroDivisionError
      else Ok (VFloat (Qred (Qpower (inject_Z x) y)))
  | Some x, Some y =>
      match integral y with
      | Some k =>
          if Qeq_bool (Q_of x) 0 && (k <? 0) then Raise ZeroDivisionError
          else Ok (VFloat (Qred (Qpower (Q_of x) k)))
      | None => outside_model
      end
  | _, _ => bad_operands a b
  end.

Definition unary (fz : Z → Z) (fq : Q → Q) (a : value) : result value :=
  match num_of a with
  | Some (NInt x) => Ok (VInt (fz x))
  | Some (NFloat x) => Ok (VFloat (fq x))
  | None => if is_object a then outside_model else Raise TypeError
  end.

(** [<], [<=], [>], [>=]: numbers by value, strings by code points. *)
Definition order (fq : Q → Q → bool) (fs : string → string → bool) (a b : value)
  : result value :=
  match a, b with
  | VStr s, VStr t => Ok (VBool (fs s t))
  | _, _ =>
      match num_of a, num_of b with
      | Some x, Some y => Ok (VBool (fq (Q_of x) (Q_of y)))
      | _, _ => bad_operands a b
      end
  end.

Definition equal (a b : value) : result bool :=
  match a, b with
  | VStr s, VStr t => Ok (String.eqb s t)
  | VNone, VNone => Ok true
  | VModule, VModule => Ok true
  | VFunc f, VFunc g => Ok (String.eqb f g)
  | _, _ =>
      match num_of a, num_of b with
      | Some x, Some y => Ok (Qeq_bool (Q_of x) (Q_of y))
      | _, _ => if is_object a || is_object b then outside_model else Ok false
      end
  end.

Definition truth (v : value) : result bool :=
  match v with
  | VInt n => Ok (negb (n =? 0))
  | VFloat x => Ok (negb (Qeq_bool x 0))
  | VBool b => Ok b
  | VStr s => Ok (negb (String.eqb s EmptyString))
  | VNone => Ok false
  | VFunc _ | VModule => Ok true
  | VObject _ => outside_model
  end.

(** [min] and [max] of two or more numbers: the first of the extremal
    arguments is returned as it is. *)
Fixpoint extremum (better : Q → Q → bool) (best : value) (bq : Q) (rest : list value)
  : result value :=
  match rest with
  | [] => Ok best
  | v :: rest' =>
      match num_of v with
      | Some n => if better (Q_of n) bq then extremum better v (Q_of n) rest'
                  else extremum better best bq rest'
      | None => outside_model
      end
  end.

Definition min_max (better : Q → Q → bool) (args : list value) : result value :=
  match args with
  | [] => Raise TypeError
  | [v] => match num_of v with Some _ => Raise TypeError | None => outside_model end
  | v :: rest =>
      match num_of v with
      | Some n => extremum better v (Q_of n) rest
      | None => outside_model
      end
  end.

(** [round(x, d)]: to the nearest multiple of [10 ** -d], ties to even. *)
Definition round_to (x : Q) (d : Z) : Q :=
  let scale := Qpower 10 d in
  Qred (inject_Z (round_half_even (x * scale)) / scale).

Definition round_ (args : list value) : result value :=
  match args with
  | [v] | [v; VNone] =>
      match num_of v with
      | Some (NInt n) => Ok (VInt n)
      | Some (NFloat x) => Ok (VInt (round_half_even x))
      | None => if is_object v then outside_model else Raise TypeError
      end
  | [v; VInt d] =>
      match num_of v with
      | Some (NInt n) =>
          if 0 <=? d then Ok (VInt n)
          else Ok (VInt (round_half_even (inject_Z n / inject_Z (10 ^ (- d)))
                         * 10 ^ (- d)))
      | Some (NFloat x) => Ok (VFloat (round_to x d))
      | None => if is_object v then outside_model else Raise TypeError
      end
  | [] => Raise TypeError
  | _ => outside_model
  end.

Definition Qtruncate (x : Q) : Z := Z.quot (Qnum x) (Zpos (Qden x)).

Definition to_int (f : Q → Z) (args : list value) : result value :=
  match args with
  | [v] => match num_of v with
           | Some n => Ok (VInt (f (Q_of n)))
           | None => if is_object v then outside_model else Raise TypeError
           end
  | _ => Raise TypeError
  end.

Definition fabs (args : list value) : result value :=
  match args with
  | [v] => match num_of v with
           | Some n => Ok (VFloat (Qabs (Q_of n)))
           | None => if is_object v then outside_model else Raise TypeError
           end
  | _ => Raise TypeError
  end.

Definition call (f : value) (args : list value) (kwargs : list (option string * value))
  : result value :=
  match f, kwargs with
  | VFunc name, [] =>
      if String.eqb name "min" then min_max (λ x y, Qltb x y) args
      else if String.eqb name "max" then min_max (λ x y, Qltb y x) args
      else if String.eqb name "round" then round_ args
      else if String.eqb name "floor" then to_int Qfloor args
      else if String.eqb name "ceil" then to_int Qceiling args
      else if String.eqb name "trunc" then to_int Qtruncate args
      else if String.eqb name "fabs" then fabs args
      else outside_model
  | VFunc _, _ :: _ => outside_model
  | VObject _, _ => outside_model
  | _, _ => Raise TypeError                  (* the object is not callable *)
  end.

Definition is_digit (c : ascii) : bool :=
  let n := Ascii.N_of_ascii c in (48 <=? n)%N && (n <=? 57)%N.

(** The digits of [s] read as a decimal numeral after [acc]; [None] when a
    character is not a digit. *)
Fixpoint digits (s : string) (acc : Z) : option Z :=
  match s with
  | EmptyString => Some acc
  | String c s' =>
      if is_digit c then digits s' (10 * acc + Z.of_N (Ascii.N_of_ascii c - 48))
      else None
  end.

Fixpoint split_dot (s : string) : string * option string :=
  match s with
  | EmptyString => (EmptyString, None)
  | String c s' =>
      if Ascii.eqb c "."%char then (EmptyString, Some s')
      else let '(a, b) := split_dot s' in (String c a, b)
  end.

(** [digits[.digits]] with at least one digit. *)
Definition unsigned_decimal (s : string) : option Q :=
  let '(ip, fp) := split_dot s in
  let fp := default EmptyString fp in
  if (String.length ip + String.length fp =? 0)%nat then None
  else
    i ← digits ip 0;
    f ← digits fp 0;
    Some (Qred (inject_Z i + inject_Z f / inject_Z (10 ^ Z.of_nat (String.length fp)))).

Definition decimal (s : string) : option Q :=
  match s with
  | String "-"%char s' => Qopp <$> unsigned_decimal s'
  | String "+"%char s' => unsigned_decimal s'
  | _ => unsigned_decimal s
  end.

Fixpoint has_letter (s : string) : bool :=
  match s with
  | EmptyString => false
  | String c s' =>
      let n := Ascii.N_of_ascii c in
      ((65 <=? n)%N && (n <=? 90)%N) || ((95 <=? n)%N && (n <=? 122)%N)
      || has_letter s'
  end.

(** [float(v)].  A string is read when it is a plain decimal; the other
    spellings [float] accepts (exponents, [inf], [nan], digit groups) all
    hold a letter or an underscore. *)
Definition float (v : value) : result Q :=
  match v with
  | VInt n =>
      if Z.abs n <? 2 ^ 1024 - 2 ^ 970 then Ok (inject_Z n) else Raise OverflowError
  | VFloat x => Ok x
  | VBool b => Ok (if b then 1 else 0)%Q
  | VStr s =>
      match decimal (text.strip s) with
      | Some x => Ok x
      | None => if has_letter s then outside_model
                else Raise (ValueError "could not convert string to float")
      end
  | VNone | VFunc _ | VModule => Raise TypeError
  | VObject _ => outside_model
  end.

(** [[f for f in dir(math) if not f.startswith('_') and callable(...)]]
    of CPython 3.11. *)
Definition math_names : list string :=
  ["acos"; "acosh"; "asin"; "asinh"; "atan"; "atan2"; "atanh"; "cbrt"; "ceil";
   "comb"; "copysign"; "cos"; "cosh"; "degrees"; "dist"; "erf"; "erfc"; "exp";
   "exp2"; "expm1"; "fabs"; "factorial"; "floor"; "fmod"; "frexp"; "fsum";
   "gcd"; "hypot"; "isclose"; "isfinite"; "isinf"; "isnan"; "isqrt"; "lcm";
   "ldexp"; "lgamma"; "log"; "log10"; "log1p"; "log2"; "modf"; "nextafter";
   "perm"; "pow"; "prod"; "radians"; "remainder"; "sin"; "sinh"; "sqrt"; "tan";
   "tanh"; "trunc"; "ulp"].

Definition cpython : runtime := {|
  py_add := add;
  py_sub := sub;
  py_mul := mul;
  py_truediv := truediv;
  py_mod := mod_;
  py_pow := pow;
  py_pos := unary (λ x, x) (λ x, x);
  py_neg := unary Z.opp Qopp;
  py_lt := order Qltb text.ltb;
  py_le := order Qle_bool text.leb;
  py_gt := order (λ x y, Qltb y x) (λ s t, text.ltb t s);
  py_ge := order (λ x y, Qle_bool y x) (λ s t, text.leb t s);
  py_eq := λ a b, b' ← equal a b; Ok (VBool b');
  py_ne := λ a b, b' ← equal a b; Ok (VBool (negb b'));
  py_truth := truth;
  py_call := call;
  py_float := float;
  math_callables := math_names
|}.

End py.

(** * The specification's reading of the operations

    Definitions written from the words of the specification, to be compared
    with the functions above. *)

(** ** Tier selection *)

(** "A tier matches exactly when usage lies in the half-open interval
    [from, to), with a missing from treated as -infinity and a missing to
    treated as +infinity." *)
Definition spec_tier_matches (usage : Q) (t : tier) : bool :=
  match t_from t with None => true | Some frm => Qle_bool frm usage end
  && match t_to t with None => true | Some to => Qltb usage to end.

(** The interval the code tests: as above, but a tier without [from] takes
    its upper bound in, [(-infinity, to]]. *)
Definition amended_tier_matches (usage : Q) (t : tier) : bool :=
  match t_from t, t_to t with
  | None, Some to => Qle_bool usage to
  | _, _ => spec_tier_matches usage t
  end.

(** "Single-tier schedules short-circuit to that tier's value; tiers are
    evaluated in order, first match wins; if none match, fall back to the
    last tier's value"; an empty schedule gives 0.0. *)
Definition select_rate_by (matches : Q → tier → bool) (schedule : list tier) (usage : Q)
  : Q :=
  match schedule with
  | [] => 0%Q
  | [t] => tier_value t
  | _ =>
      match List.find (matches usage) schedule with
      | Some t => tier_value t
      | None => from_option tier_value 0%Q (last schedule)
      end
  end.

Definition spec_select_rate := select_rate_by spec_tier_matches.
Definition amended_select_rate := select_rate_by amended_tier_matches.

(** ** Band assignment *)

(** "(i) its date_ranges is absent or some range contains the timestamp's
    date with inclusive bounds". *)
Definition range_contains (d : date) (r : date_window) : Prop :=
  ∃ frm to, w_from r = Some frm ∧ w_to r = Some to
            ∧ cal.date_leb frm d = true ∧ cal.date_leb d to = true.

Definition spec_dates_match (d : date) (band : time_band) : Prop :=
  match b_date_ranges band with
  | None => True
  | Some ranges => Exists (range_contains d) ranges
  end.

(** The same with an empty list of ranges counted as absent. *)
Definition amended_dates_match (d : date) (band : time_band) : Prop :=
  match b_date_ranges band with
  | None | Some [] => True
  | Some ranges => Exists (range_contains d) ranges
  end.

(** "(ii) its days contains "all" or the lowercase 3-letter weekday
    abbreviation"; the entries of [days] are taken in lower case. *)
Definition spec_days_match (d : date) (band : time_band) : Prop :=
  "all" ∈ text.lower <$> b_days band ∨ cal.day_abbr d ∈ text.lower <$> b_days band.

(** "(iii) at least one of its times spans satisfies from <= HH:MM < to
    under lexicographic string comparison". *)
Definition span_contains (time_str : string) (s : span) : Prop :=
  ∃ frm to, sp_from s = Some frm ∧ sp_to s = Some to
            ∧ text.leb frm time_str = true ∧ text.ltb time_str to = true.

Definition spec_times_match (ts : datetime) (band : time_band) : Prop :=
  Exists (span_contains (cal.strftime_HM ts)) (b_times band).

Definition spec_band_matches (ts : datetime) (band : time_band) : Prop :=
  spec_dates_match (dt_date ts) band ∧ spec_days_match (dt_date ts) band
  ∧ spec_times_match ts band.

Definition amended_band_matches (ts : datetime) (band : time_band) : Prop :=
  amended_dates_match (dt_date ts) band ∧ spec_days_match (dt_date ts) band
  ∧ spec_times_match ts band.

(** "The first fully matching band's id is returned, and "off_peak" is
    returned when no band matches": [bands] splits into bands that do not
    match, the first one that does, and the rest. *)
Definition first_match (matches : time_band → Prop) (bands : list time_band)
    (id : string) : Prop :=
  (Forall (λ b, ¬ matches b) bands ∧ id = "off_peak")
  ∨ ∃ before band after,
      bands = before ++ band :: after
      ∧ Forall (λ b, ¬ matches b) before
      ∧ matches band
      ∧ id = default "off_peak" (b_id band).

(** ** The evaluator *)

(** The sub-expressions of a node. *)
Definition children (n : ast.node) : list ast.node :=
  match n with
  | ast.Expression body => [body]
  | ast.Constant _ | ast.Name _ => []
  | ast.BinOp l _ r => [l; r]
  | ast.UnaryOp _ e => [e]
  | ast.Call f args keywords => f :: args ++ keywords.*2
  | ast.IfExp test body orelse => [test; body; orelse]
  | ast.Compare l _ comparators => l :: comparators
  | ast.BoolOp _ vs => vs
  | ast.Attribute v _ => [v]
  | ast.Subscript v slice => [v; slice]
  | ast.Lambda body => [body]
  | ast.ListComp elt | ast.SetComp elt | ast.GeneratorExp elt => [elt]
  | ast.DictComp k v => [k; v]
  | ast.OtherNode _ cs => cs
  end.

(** [occurs n tree]: the expression [tree] contains the node [n]. *)
Inductive occurs (n : ast.node) : ast.node → Prop :=
| occurs_here : occurs n n
| occurs_child tree c : c ∈ children tree → occurs n c → occurs n tree.

(** "The allowed set" of node kinds: those [_eval] has a case for. *)
Definition allowed_kind (n : ast.node) : bool :=
  match n with
  | ast.Expression _ | ast.Constant _ | ast.BinOp _ _ _ | ast.UnaryOp _ _
  | ast.Name _ | ast.Call _ _ _ | ast.IfExp _ _ _ | ast.Compare _ _ _
  | ast.BoolOp _ _ => true
  | _ => false
  end.

(** "An identifier outside the variable environment, the whitelisted math
    functions, and {min, max, round}". *)
Definition spec_name_allowed (rt : runtime) (variables : gmap string value)
    (id : string) : Prop :=
  is_Some (variables !! id) ∨ id ∈ math_callables rt ∨ id ∈ ["min"; "max"; "round"].

(** The expressions the specification says must fail: one that references
    such an identifier or contains a node of a kind outside the allowed
    set, anywhere. *)
Definition spec_must_fail (rt : runtime) (variables : gmap string value)
    (tree : ast.node) : Prop :=
  ∃ n, occurs n tree
       ∧ ((∃ id, n = ast.Name id ∧ ¬ spec_name_allowed rt variables id)
          ∨ allowed_kind n = false).

Definition supported_operator (op : ast.operator) : bool :=
  match op with
  | ast.Add | ast.Sub | ast.Mult | ast.Div | ast.Mod | ast.Pow => true
  | _ => false
  end.

Definition supported_unaryop (op : ast.unaryop) : bool :=
  match op with ast.UAdd | ast.USub => true | _ => false end.

Definition supported_cmpop (op : ast.cmpop) : bool :=
  match op with
  | ast.Lt | ast.LtE | ast.Gt | ast.GtE | ast.Eq | ast.NotEq => true
  | _ => false
  end.

(** The sub-expressions that are evaluated whenever the node is: all of
    them, except the two branches of a conditional (and a comparator that
    has no operator). *)
Definition strict_children (n : ast.node) : list ast.node :=
  match n with
  | ast.Expression body => [body]
  | ast.BinOp l _ r => [l; r]
  | ast.UnaryOp _ e => [e]
  | ast.Call f args keywords => f :: args ++ keywords.*2
  | ast.IfExp test _ _ => [test]
  | ast.Compare l ops comparators => l :: take (length ops) comparators
  | ast.BoolOp _ vs => vs
  | _ => []
  end.

(** [Rejected rt variables tree]: evaluation of [tree] reaches something
    that fails: a name that is neither a variable, nor in [allowed_funcs],
    nor [math]; a node kind or an operator [_eval] has no case for; a node
    whose own evaluation raises (a division by zero, a type error); all of
    it in a sub-expression that is evaluated, where of a conditional only
    the test and the branch the test selects are. *)
Inductive Rejected (rt : runtime) (variables : gmap string value) : ast.node → Prop :=
| rejected_name id :
    variables !! id = None → allowed_funcs rt id = None → id ≠ "math" →
    Rejected rt variables (ast.Name id)
| rejected_kind n :
    allowed_kind n = false → Rejected rt variables n
| rejected_operator l op r :
    supported_operator op = false → Rejected rt variables (ast.BinOp l op r)
| rejected_unaryop op e :
    supported_unaryop op = false → Rejected rt variables (ast.UnaryOp op e)
| rejected_cmpop l ops comparators op :
    op ∈ take (length comparators) ops → supported_cmpop op = false →
    Rejected rt variables (ast.Compare l ops comparators)
| rejected_raise n e :
    _eval rt variables n = Raise e → Rejected rt variables n
| rejected_strict tree c :
    c ∈ strict_children tree → Rejected rt variables c → Rejected rt variables tree
| rejected_body test body orelse v :
    _eval rt variables test = Ok v → py_truth rt v = Ok true →
    Rejected rt variables body → Rejected rt variables (ast.IfExp test body orelse)
| rejected_orelse test body orelse v :
    _eval rt variables test = Ok v → py_truth rt v = Ok false →
    Rejected rt variables orelse → Rejected rt variables (ast.IfExp test body orelse).

(** An expression without conditionals, whose comparisons have as many
    operators as comparators (as the parser makes them): every one of its
    sub-expressions under nodes of allowed kinds is evaluated. *)
Definition eager (tree : ast.node) : Prop :=
  ∀ n, occurs n tree →
       match n with
       | ast.IfExp _ _ _ => False
       | ast.Compare _ ops comparators => length ops = length comparators
       | _ => True
       end.

(** The expressions of [spec_must_fail], with the name [math] taken out of
    the identifiers that must fail. *)
Definition must_fail (rt : runtime) (variables : gmap string value)
    (tree : ast.node) : Prop :=
  ∃ n, occurs n tree
       ∧ ((∃ id, n = ast.Name id ∧ ¬ spec_name_allowed rt variables id ∧ id ≠ "math")
          ∨ allowed_kind n = false).

(** "Chained comparisons hold iff every adjacent pair holds": the
    comparisons of the adjacent pairs of [left :: vs]. *)
Fixpoint pairwise (rt : runtime) (ops : list ast.cmpop) (left : value) (vs : list value)
  : result (list value) :=
  match ops, vs with
  | op :: ops', v :: vs' =>
      r ← compare_op rt op left v;
      rs ← pairwise rt ops' v vs';
      Ok (r :: rs)
  | _, _ => Ok []
  end.

(** ** The bill *)

(** The database with [doc] stored as the document of tariff version
    [tariff_version_id]. *)
Definition with_tariff (db : database) (tariff_version_id : Z) (doc : tariff) : database :=
  {| tariff_versions :=
       <[tariff_version_id := {| canonical_json := Some doc |}]> (tariff_versions db);
     meter_reading_rows := meter_reading_rows db;
     calc_runs := calc_runs db |}.

(** [(end.date() - start.date()).days], at least 1. *)
Definition billing_days (start end_ : datetime) : Z :=
  Z.max 1 (cal.days_between (dt_date start) (dt_date end_)).

(** "The unrounded per-component costs": the id and the cost of a component
    that enters the bill, one with an id, in season, and with a formula
    that evaluates. *)
Definition included_cost (rt : runtime) (u : usage_totals) (days : Z)
    (start end_ : datetime) (comp : component) : option (string * Q) :=
  comp_id ← c_id comp;
  if bool_decide (comp_id = "") || out_of_season start end_ comp then None
  else
    expr ← c_calculation comp;
    match _safe_eval rt expr (vars_for_expr u days start end_ comp) with
    | Ok cost_float => Some (comp_id, cost_float)
    | Raise _ => None
    end.

(** The sum of the [cost] fields of a breakdown. *)
Definition breakdown_sum (b : gmap string entry) : Q :=
  map_fold (λ _ e acc, (acc + cost e)%Q) 0%Q b.

(** ** Example data *)

Module example.

Definition at_ (y m d h mi : Z) : datetime :=
  {| dt_date := {| year := y; month := m; day := d |};
     hour := h; minute := mi; second := 0 |}.

(** The period 2024-01-01 to 2024-01-31: 30 days. *)
Definition start : datetime := at_ 2024 1 1 0 0.
Definition end_ : datetime := at_ 2024 1 31 0 0.

Definition formula (body : ast.node) : option (option ast.node) :=
  Some (Some (ast.Expression body)).

(** [{id: "energy", unit: "c/kWh", rate_schedule: [{value: 10}],
     applies_to: ["usage_total"],
     calculation: "rate*total_usage*loss_factor"}] *)
Definition energy : component :=
  {| c_id := Some "energy";
     c_season := None;
     c_applies_to := ["usage_total"];
     c_rate_schedule := Some [ {| t_from := None; t_to := None; t_value := Some 10%Q |} ];
     c_unit := Some "c/kWh";
     c_loss_factor := None;
     c_calculation :=
       formula (ast.BinOp (ast.BinOp (ast.Name "rate") ast.Mult (ast.Name "total_usage"))
                  ast.Mult (ast.Name "loss_factor")) |}.

(** The same with [calculation: "rate*undefined_var"]. *)
Definition broken : component :=
  {| c_id := Some "broken";
     c_season := None;
     c_applies_to := ["usage_total"];
     c_rate_schedule := Some [ {| t_from := None; t_to := None; t_value := Some 10%Q |} ];
     c_unit := Some "c/kWh";
     c_loss_factor := None;
     c_calculation :=
       formula (ast.BinOp (ast.Name "rate") ast.Mult (ast.Name "undefined_var")) |}.

(** A fixed charge [calculation: "0.00004"]. *)
Definition tiny (id : string) : component :=
  {| c_id := Some id;
     c_season := None;
     c_applies_to := ["fixed"];
     c_rate_schedule := None;
     c_unit := None;
     c_loss_factor := None;
     c_calculation := formula (ast.Constant (VFloat (4 # 100000))) |}.

Definition doc (comps : list component) : tariff :=
  {| components := comps; time_bands := [] |}.

(** Customer 1 used 100 kWh on 2024-01-10 at 10:00. *)
Definition db : database :=
  {| tariff_versions := ∅;
     meter_reading_rows :=
       [ {| mr_customer_id := 1; mr_timestamp := at_ 2024 1 10 10 0;
            kwh_used := 100 |} ];
     calc_runs := [] |}.

Definition empty_db : database :=
  {| tariff_versions := ∅; meter_reading_rows := []; calc_runs := [] |}.

End example.

(** ** Orders, scopes and variants used in the statements *)

(** The fields of a timestamp, most significant first, and the
    lexicographic comparison of such lists. *)
Definition datetime_fields (t : datetime) : list Z :=
  [year (dt_date t); month (dt_date t); day (dt_date t); hour t; minute t; second t].

Fixpoint lex_cmp (a b : list Z) : comparison :=
  match a, b with
  | [], [] => Eq
  | [], _ :: _ => Lt
  | _ :: _, [] => Gt
  | x :: a', y :: b' =>
      match x ?= y with
      | Eq => lex_cmp a' b'
      | c => c
      end
  end.

(** The [where] clause of the readings query. *)
Definition in_scope (customer_id : Z) (start end_ : datetime) (r : meter_reading) : Prop :=
  mr_customer_id r = customer_id
  ∧ cal.datetime_leb start (mr_timestamp r) = true
  ∧ cal.datetime_ltb (mr_timestamp r) end_ = true.

(** Readings in ascending order of timestamp. *)
Definition ts_le (a b : meter_reading) : Prop :=
  cal.datetime_leb (mr_timestamp a) (mr_timestamp b) = true.

(** The database with other rows in the readings table. *)
Definition with_readings (db : database) (rows : list meter_reading) : database :=
  {| tariff_versions := tariff_versions db;
     meter_reading_rows := rows;
     calc_runs := calc_runs db |}.

(** The component with its [season] key removed. *)
Definition without_season (comp : component) : component :=
  {| c_id := c_id comp;
     c_season := None;
     c_applies_to := c_applies_to comp;
     c_rate_schedule := c_rate_schedule comp;
     c_unit := c_unit comp;
     c_loss_factor := c_loss_factor comp;
     c_calculation := c_calculation comp |}.

(** A span whose end is not after its start, such as 22:00 to 06:00. *)
Definition reversed_span (s : span) : Prop :=
  ∀ f t, sp_from s = Some f → sp_to s = Some t → text.ltb f t = false.

(** The rows of [calc_runs] of one customer and tariff version. *)
Definition run_of (customer_id tariff_version_id : Z) (r : calc_run) : Prop :=
  cr_customer_id r = customer_id ∧ cr_tariff_version_id r = tariff_version_id.

(** The row carries the given checksum and period in its summary. *)
Definition run_records (checksum : string) (start end_ : datetime) (r : calc_run) : Prop :=
  ∃ meta, result_summary_json r = Some meta
          ∧ meta_checksum meta = checksum
          ∧ meta_start meta = cal.str_datetime start
          ∧ meta_end meta = cal.str_datetime end_.

(** The row [upsert_calc_run] adds when it finds no run to reuse. *)
Definition new_run (db : database) (customer_id tariff_version_id : Z)
    (start end_ : datetime) (checksum : string) (res : calc_result) : calc_run :=
  {| cr_id := next_run_id (calc_runs db);
     cr_customer_id := customer_id;
     cr_tariff_version_id := tariff_version_id;
     cr_status := "completed";
     result_summary_json :=
       Some {| meta_start := cal.str_datetime start;
               meta_end := cal.str_datetime end_;
               meta_checksum := checksum;
               summary_result := res |} |}.

(** The database with one more row in [calc_runs]. *)
Definition add_run (db : database) (row : calc_run) : database :=
  {| tariff_versions := tariff_versions db;
     meter_reading_rows := meter_reading_rows db;
     calc_runs := calc_runs db ++ [row] |}.

(** ** White space in units *)

(** The string is made of white space only. *)
Fixpoint all_space (s : string) : bool :=
  match s with
  | EmptyString => true
  | String c s' => text.is_space c && all_space s'
  end.

(** "Space-insensitive" matching: the unit with every white space
    character taken out, wherever it stands. *)
Fixpoint without_spaces (s : string) : string :=
  match s with
  | EmptyString => EmptyString
  | String c s' => if text.is_space c then without_spaces s' else String c (without_spaces s')
  end.

(** ** Usage buckets *)

(** The three usage buckets of the readings loop of [calculate_bill]. *)
Inductive bucket : Type := Peak | Shoulder | OffPeak.

Definition bucket_eqb (a b : bucket) : bool :=
  match a, b with
  | Peak, Peak | Shoulder, Shoulder | OffPeak, OffPeak => true
  | _, _ => false
  end.

(** The bucket a reading belongs to: by the name of its time band. *)
Definition bucket_of (canonical : tariff) (r : meter_reading) : bucket :=
  let b := text.lower (assign_band (mr_timestamp r) canonical) in
  if bool_decide (b ∈ ["peak"; "usage_peak"; "retail_peak"; "network_peak"]) then Peak
  else if bool_decide (b ∈ ["shoulder"; "usage_shoulder"; "retail_shoulder";
                            "network_shoulder"]) then Shoulder
  else OffPeak.

(** The readings of one bucket, in the order of the readings. *)
Definition bucket_readings (canonical : tariff) (b : bucket)
    (readings : list meter_reading) : list meter_reading :=
  List.filter (λ r, bucket_eqb (bucket_of canonical r) b) readings.

(** [acc = 0.0; for r in readings: acc += float(r.kwh_used)]: the values
    added one after the other, from the left. *)
Definition running_sum (readings : list meter_reading) : Q :=
  foldl Qplus 0%Q (kwh_used <$> readings).

(** Two customers with the same meter data: 40 kWh on 2024-01-10 at 10:00
    and 15 kWh on 2024-01-12 at 08:30 each. *)
Definition twin_db : database :=
  {| tariff_versions := ∅;
     meter_reading_rows :=
       [ {| mr_customer_id := 2; mr_timestamp := example.at_ 2024 1 10 10 0;
            kwh_used := 40 |};
         {| mr_customer_id := 3; mr_timestamp := example.at_ 2024 1 10 10 0;
            kwh_used := 40 |};
         {| mr_customer_id := 3; mr_timestamp := example.at_ 2024 1 12 8 30;
            kwh_used := 15 |};
         {| mr_customer_id := 2; mr_timestamp := example.at_ 2024 1 12 8 30;
            kwh_used := 15 |} ];
     calc_runs := [] |}.

(** * Properties *)

(** ** Tier selection *)

Lemma applicable_find (schedule : list tier) (usage : Q) :
  applicable schedule usage
  = tier_value <$> List.find (amended_tier_matches usage) schedule.
Proof.
  induction schedule as [|t rest IH]; [done|].
  cbn [applicable List.find].
  replace (amended_tier_matches usage t) with (tier_applies t usage).
  - destruct (tier_applies t usage); [done | apply IH].
  - unfold tier_applies, amended_tier_matches, spec_tier_matches.
    destruct (t_from t), (t_to t); try done.
    by rewrite andb_true_r.
Qed.

(** C9: rate selection on an empty or missing [rate_schedule] returns 0.0
    for every usage, and the rate converted from it is zero whatever the
    unit, so such a component is billed at a zero rate and nothing raises. *)
Theorem select_rate_no_tiers (usage : Q) (unit : option string) (days : Z)
    (billing_start : date) :
  _select_rate_value [] usage = 0%Q
  ∧ _select_rate_value (default [] None) usage = 0%Q
  ∧ (_parse_rate unit (_select_rate_value (default [] None) usage) days billing_start
     == 0)%Q.
Proof.
  split; [done|]. split; [done|].
  cbn [default from_option _select_rate_value].
  unfold _parse_rate. destruct unit as [u|]; [|done].
  destruct (text.startswith _ _);
    repeat (match goal with |- context [if ?b then _ else _] => destruct b end);
    cbn; unfold Qeq; cbn; lia.
Qed.

(** C2, the claim as stated, fails: with tiers [{to: 100, value: 1}] and
    [{from: 100, value: 2}] and usage 100 the half-open reading selects the
    second tier, the code the first. *)
Lemma select_rate_half_open_fails :
  let schedule := [ {| t_from := None; t_to := Some 100%Q; t_value := Some 1%Q |};
                    {| t_from := Some 100%Q; t_to := None; t_value := Some 2%Q |} ] in
  spec_select_rate schedule 100 = 2%Q
  ∧ _select_rate_value schedule 100 = 1%Q
  ∧ ¬ (∀ schedule usage, _select_rate_value schedule usage = spec_select_rate schedule usage).
Proof.
  cbn zeta. split; [done|]. split; [done|].
  intros H.
  specialize (H [ {| t_from := None; t_to := Some 100%Q; t_value := Some 1%Q |};
                  {| t_from := Some 100%Q; t_to := None; t_value := Some 2%Q |} ] 100%Q).
  vm_compute in H. discriminate H.
Qed.

(** C2, amended: a single tier gives its value whatever the usage; among
    several tiers the first one whose interval holds the usage gives the
    value, the interval being [from, to) when [from] is present and
    (-infinity, to] when it is missing; when no tier matches the last
    tier's value is returned.  The two readings differ on no tier that has
    a [from] or lacks a [to]. *)
Theorem select_rate_first_match (schedule : list tier) (usage : Q) :
  _select_rate_value schedule usage = amended_select_rate schedule usage
  ∧ (∀ t, _select_rate_value [t] usage = tier_value t)
  ∧ (∀ t, t_from t ≠ None ∨ t_to t = None →
          amended_tier_matches usage t = spec_tier_matches usage t).
Proof.
  split; [|split].
  - unfold _select_rate_value, amended_select_rate, select_rate_by.
    destruct schedule as [|t [|t' rest]]; [done..|].
    rewrite applicable_find.
    by destruct (List.find _ _).
  - done.
  - intros t [H|H]; unfold amended_tier_matches.
    + by destruct (t_from t).
    + rewrite H. by destruct (t_from t).
Qed.

Lemma select_rate_first_match_witness :
  let t := {| t_from := Some 0%Q; t_to := Some 100%Q; t_value := Some 3%Q |} in
  (t_from t ≠ None ∨ t_to t = None)
  ∧ amended_tier_matches 100 t = spec_tier_matches 100 t.
Proof.
  cbn zeta. split.
  - left. discriminate.
  - apply (select_rate_first_match [] 100). left. discriminate.
Defined.

(** ** Band assignment *)

Lemma in_date_ranges_spec (d : date) (ranges : list date_window) :
  _in_date_ranges d ranges = true ↔ Exists (range_contains d) ranges.
Proof.
  induction ranges as [|r rest IH]; cbn [_in_date_ranges].
  - split; [done | by intros H; inversion H].
  - rewrite Exists_cons, <- IH. unfold range_contains.
    destruct (w_from r) as [frm|], (w_to r) as [to|];
      try (split; [by right | by intros [(? & ? & ? & ? & ?)|?]]).
    destruct (cal.date_leb frm d && cal.date_leb d to) eqn:E.
    + apply andb_true_iff in E as [??]. split; [|done].
      intros _. left. by exists frm, to.
    + split; [by right|]. intros [(f & t & ? & ? & Hf & Ht)|?]; [|done].
      simplify_eq. by rewrite Hf, Ht in E.
Qed.

Lemma in_times_spec (time_str : string) (times : list span) :
  in_times time_str times = true ↔ Exists (span_contains time_str) times.
Proof.
  induction times as [|s rest IH]; cbn [in_times].
  - split; [done | by intros H; inversion H].
  - rewrite Exists_cons, <- IH. unfold span_contains.
    destruct (sp_from s) as [frm|], (sp_to s) as [to|];
      try (split; [by right | by intros [(? & ? & ? & ? & ?)|?]]).
    destruct (text.leb frm time_str && text.ltb time_str to) eqn:E.
    + apply andb_true_iff in E as [??]. split; [|done].
      intros _. left. by exists frm, to.
    + split; [by right|]. intros [(f & t & ? & ? & Hf & Ht)|?]; [|done].
      simplify_eq. by rewrite Hf, Ht in E.
Qed.

Lemma days_test_spec (abbr : string) (days_list : list string) :
  bool_decide ("all" ∉ days_list) && bool_decide (abbr ∉ days_list) = false
  ↔ "all" ∈ days_list ∨ abbr ∈ days_list.
Proof.
  rewrite andb_false_iff, !bool_decide_eq_false.
  split; (intros [H|H]; [left|right]); [by apply dec_stable..|by intros ?|by intros ?].
Qed.

(** What one turn of the band loop does, in terms of the amended reading. *)
Lemma assign_band_loop_cons (ts : datetime) (band : time_band) (rest : list time_band) :
  let go := assign_band_loop (dt_date ts) (cal.day_abbr (dt_date ts)) (cal.strftime_HM ts) in
  (amended_band_matches ts band ∧ go (band :: rest) = default "off_peak" (b_id band))
  ∨ (¬ amended_band_matches ts band ∧ go (band :: rest) = go rest).
Proof.
  cbn zeta. cbn [assign_band_loop].
  unfold amended_band_matches, spec_days_match, spec_times_match.
  destruct (bool_decide ("all" ∉ text.lower <$> b_days band)
            && bool_decide (cal.day_abbr (dt_date ts) ∉ text.lower <$> b_days band))
    eqn:Hdays;
    [ assert (Hd : ¬ ("all" ∈ text.lower <$> b_days band
                      ∨ cal.day_abbr (dt_date ts) ∈ text.lower <$> b_days band))
        by (rewrite <- days_test_spec; congruence)
    | apply days_test_spec in Hdays ];
    (destruct (in_times (cal.strftime_HM ts) (b_times band)) eqn:Ht;
     [ apply in_times_spec in Ht
     | assert (Hnt : ¬ Exists (span_contains (cal.strftime_HM ts)) (b_times band))
         by (rewrite <- in_times_spec; congruence) ]);
    unfold amended_dates_match;
    (destruct (b_date_ranges band) as [[|r ranges]|];
     [ | destruct (_in_date_ranges (dt_date ts) (r :: ranges)) eqn:Hr;
         [ apply in_date_ranges_spec in Hr
         | assert (Hnr : ¬ Exists (range_contains (dt_date ts)) (r :: ranges))
             by (rewrite <- in_date_ranges_spec; congruence) ];
         cbn [negb]
       | ]);
    first [ left; split; [by repeat split | done]
          | right; split; [by intros (? & ? & ?) | done] ].
Qed.

Lemma first_match_unique (matches : time_band → Prop) (bands : list time_band)
    (id1 id2 : string) :
  first_match matches bands id1 → first_match matches bands id2 → id1 = id2.
Proof.
  intros [[H1 ->]|(b1 & x1 & a1 & E1 & F1 & M1 & ->)]
         [[H2 ->]|(b2 & x2 & a2 & E2 & F2 & M2 & ->)]; [done|..].
  - subst bands. apply Forall_app in H1 as [_ H1]. by inversion H1.
  - subst bands. apply Forall_app in H2 as [_ H2]. by inversion H2.
  - subst bands. revert b2 E2 F2.
    induction b1 as [|y b1 IH]; intros [|z b2] E2 F2; simplify_eq/=.
    + done.
    + by inversion F2.
    + by inversion F1.
    + inversion F1; inversion F2; subst. by eapply IH.
Qed.

(** C3, the claim as stated, fails: a band whose [date_ranges] is the empty
    list is matched by the code at every date (the list is falsy), while no
    range of it contains the date. *)
Lemma assign_band_empty_date_ranges :
  let band := {| b_id := Some "peak"; b_days := ["all"];
                 b_times := [ {| sp_from := Some "07:00"; sp_to := Some "21:00" |} ];
                 b_date_ranges := Some [] |} in
  let doc := {| components := []; time_bands := [band] |} in
  let ts := {| dt_date := {| year := 2024; month := 1; day := 1 |};
               hour := 10; minute := 0; second := 0 |} in
  assign_band ts doc = "peak"
  ∧ ¬ spec_band_matches ts band
  ∧ ¬ first_match (spec_band_matches ts) (time_bands doc) (assign_band ts doc).
Proof.
  cbn zeta. split; [by vm_compute|].
  assert (Hn : ∀ ts, ¬ spec_band_matches ts
             {| b_id := Some "peak"; b_days := ["all"];
                b_times := [ {| sp_from := Some "07:00"; sp_to := Some "21:00" |} ];
                b_date_ranges := Some [] |}).
  { intros ts (Hd & _). unfold spec_dates_match in Hd. cbn in Hd. by inversion Hd. }
  split; [apply Hn|].
  intros [[_ H]|(before & band & after & E & _ & M & _)].
  - vm_compute in H. discriminate H.
  - cbn [time_bands] in E.
    destruct before as [|? [|??]]; simplify_eq/=. by apply Hn in M.
Qed.

(** C3, amended: [assign_band] returns, for every timestamp and tariff
    document, the one id determined as follows: bands are taken in
    declaration order; a band matches iff (i) its [date_ranges] is absent
    or empty or some range contains the timestamp's date with inclusive
    bounds, (ii) its [days], in lower case, contains "all" or the weekday
    abbreviation, and (iii) some [times] span satisfies
    [from <= HH:MM < to] as strings; the id of the first matching band is
    returned, and "off_peak" when no band matches. *)
Theorem assign_band_first_match (ts : datetime) (canonical : tariff) :
  first_match (amended_band_matches ts) (time_bands canonical) (assign_band ts canonical)
  ∧ ∀ id, first_match (amended_band_matches ts) (time_bands canonical) id →
          id = assign_band ts canonical.
Proof.
  assert (H : first_match (amended_band_matches ts) (time_bands canonical)
                (assign_band ts canonical)).
  { unfold assign_band. cbn zeta.
    induction (time_bands canonical) as [|band rest IH].
    - left. by split.
    - destruct (assign_band_loop_cons ts band rest) as [[Hm ->]|[Hm ->]].
      + right. exists [], band, rest.
        split; [done|]. split; [constructor|]. by split.
      + destruct IH as [[Hall ->]|(before & b & after & -> & Hb & Hmb & ->)].
        * left. split; [by constructor|done].
        * right. exists (band :: before), b, after.
          split; [done|]. split; [by constructor|]. by split. }
  split; [done|]. intros id Hid. by eapply first_match_unique.
Qed.

Lemma assign_band_first_match_witness :
  let band := {| b_id := Some "peak"; b_days := ["mon"];
                 b_times := [ {| sp_from := Some "07:00"; sp_to := Some "21:00" |} ];
                 b_date_ranges := None |} in
  let doc := {| components := []; time_bands := [band] |} in
  let ts := {| dt_date := {| year := 2024; month := 1; day := 1 |};
               hour := 10; minute := 0; second := 0 |} in
  first_match (amended_band_matches ts) (time_bands doc) "peak"
  ∧ "peak" = assign_band ts doc.
Proof.
  intros band doc ts.
  assert (H : first_match (amended_band_matches ts) (time_bands doc) "peak").
  { right. exists [], band, []. split; [done|]. split; [constructor|]. split; [|done].
    split; [done|]. split.
    - right. vm_compute. left.
    - constructor. eexists _, _. by vm_compute. }
  split; [exact H|].
  exact (proj2 (assign_band_first_match ts doc) "peak" H).
Defined.

(** ** Rate conversion *)

Lemma prefix_both (a b s : string) :
  String.prefix a s = true → String.prefix b s = true →
  String.prefix a b = true ∨ String.prefix b a = true.
Proof.
  revert a b. induction s as [|c s IH]; intros [|x a] [|y b]; cbn; auto;
    try (intros; discriminate).
  destruct (ascii_dec x c) as [->|], (ascii_dec y c) as [->|]; try discriminate.
  intros Ha Hb. destruct (ascii_dec c c); [|done]. by apply IH.
Qed.

Lemma prefix_trans (a b c : string) :
  String.prefix a b = true → String.prefix b c = true → String.prefix a c = true.
Proof.
  revert a b. induction c as [|z c IH]; intros [|x a] [|y b]; cbn; auto;
    try (intros; discriminate).
  destruct (ascii_dec x y) as [->|], (ascii_dec y z) as [->|]; try discriminate.
  destruct (ascii_dec z z); [|done]. apply IH.
Qed.

Lemma endswith_excl (s p q : string) :
  text.endswith s p = true → text.endswith s q = true →
  text.endswith p q = true ∨ text.endswith q p = true.
Proof.
  unfold text.endswith. intros Hp Hq.
  destruct (prefix_both _ _ _ Hp Hq); auto.
Qed.

Lemma endswith_trans (s p q : string) :
  text.endswith s p = true → text.endswith p q = true → text.endswith s q = true.
Proof. unfold text.endswith. intros Hp Hq. by eapply prefix_trans. Qed.

(** Two of the unit suffixes cannot both end one string, unless one ends
    the other. *)
Ltac suffix_clash :=
  match goal with
  | H1 : text.endswith ?s ?p = true, H2 : text.endswith ?s ?q = true |- _ =>
      destruct (endswith_excl s p q H1 H2) as [X|X]; vm_compute in X; discriminate X
  | H1 : text.endswith ?s ?p = true, H2 : text.endswith ?s ?q = false |- _ =>
      assert (X : text.endswith s q = true)
        by (apply (endswith_trans s p q H1); vm_compute; reflexivity);
      congruence
  end.

Lemma lower_char_idemp (c : ascii) : text.lower_char (text.lower_char c) = text.lower_char c.
Proof. by destruct c as [[] [] [] [] [] [] [] []]. Qed.

Lemma is_space_lower_char (c : ascii) : text.is_space (text.lower_char c) = text.is_space c.
Proof. by destruct c as [[] [] [] [] [] [] [] []]. Qed.

Lemma lower_idemp (s : string) : text.lower (text.lower s) = text.lower s.
Proof. induction s; cbn; [done|]. by rewrite lower_char_idemp, IHs. Qed.

Lemma lstrip_lower (s : string) : text.lstrip (text.lower s) = text.lower (text.lstrip s).
Proof.
  induction s as [|c s IH]; cbn; [done|].
  rewrite is_space_lower_char. by destruct (text.is_space c).
Qed.

Lemma rev_onto_lower (s acc : string) :
  text.rev_onto (text.lower s) (text.lower acc) = text.lower (text.rev_onto s acc).
Proof.
  revert acc. induction s as [|c s IH]; intros acc; cbn; [done|].
  by rewrite <- IH.
Qed.

Lemma strip_lower (s : string) : text.strip (text.lower s) = text.lower (text.strip s).
Proof.
  unfold text.strip, text.rstrip, text.rev.
  rewrite lstrip_lower.
  change EmptyString with (text.lower EmptyString).
  by rewrite !rev_onto_lower, lstrip_lower, rev_onto_lower.
Qed.

Lemma append_cons (x : ascii) (a b : string) : String x a +:+ b = String x (a +:+ b).
Proof. reflexivity. Qed.

Lemma append_assoc (a b c : string) : (a +:+ b) +:+ c = a +:+ (b +:+ c).
Proof.
  induction a as [|x a IH]; [reflexivity|].
  by rewrite !append_cons, IH.
Qed.

Lemma append_empty_r (a : string) : a +:+ EmptyString = a.
Proof. induction a as [|x a IH]; [reflexivity|]. by rewrite append_cons, IH. Qed.

Lemma rev_onto_acc (s acc : string) :
  text.rev_onto s acc = text.rev_onto s EmptyString +:+ acc.
Proof.
  revert acc. induction s as [|c s IH]; intros acc; [reflexivity|].
  cbn [text.rev_onto].
  rewrite (IH (String c acc)), (IH (String c EmptyString)).
  by rewrite append_assoc.
Qed.

Lemma rev_append (a b : string) : text.rev (a +:+ b) = text.rev b +:+ text.rev a.
Proof.
  unfold text.rev. generalize EmptyString at 1 3.
  induction a as [|x a IH]; intros acc.
  - change (EmptyString +:+ b) with b. cbn [text.rev_onto]. apply rev_onto_acc.
  - rewrite append_cons. cbn [text.rev_onto]. apply IH.
Qed.

Lemma all_space_rev_onto (s acc : string) :
  all_space (text.rev_onto s acc) = all_space s && all_space acc.
Proof.
  revert acc. induction s as [|c s IH]; intros acc; cbn [text.rev_onto all_space]; [done|].
  rewrite IH. cbn [all_space]. by destruct (text.is_space c), (all_space s).
Qed.

Lemma lstrip_space_append (l s : string) :
  all_space l = true → text.lstrip (l +:+ s) = text.lstrip s.
Proof.
  induction l as [|c l IH]; [done|].
  cbn [all_space]. intros [Hc Hl]%andb_true_iff.
  rewrite append_cons. cbn [text.lstrip]. rewrite Hc. by apply IH.
Qed.

Lemma rstrip_append_space (s r : string) :
  all_space r = true → text.rstrip (s +:+ r) = text.rstrip s.
Proof.
  intros Hr. unfold text.rstrip. rewrite rev_append, lstrip_space_append; [done|].
  unfold text.rev. by rewrite all_space_rev_onto, Hr.
Qed.

(** White space before and after a string does not change what [strip]
    leaves of it. *)
Lemma strip_surrounding_space (l s r : string) :
  all_space l = true → all_space r = true →
  text.strip (l +:+ s +:+ r) = text.strip s.
Proof.
  intros Hl Hr. unfold text.strip. rewrite (lstrip_space_append l _ Hl).
  induction s as [|c s IH].
  - change (EmptyString +:+ r) with r.
    rewrite <- (append_empty_r r) at 1.
    by rewrite (lstrip_space_append r EmptyString Hr).
  - rewrite append_cons. cbn [text.lstrip]. destruct (text.is_space c); [done|].
    rewrite <- append_cons. by apply rstrip_append_space.
Qed.

(** C6, amended: for every unit string, value, day count and period start,
    with the unit stripped of surrounding white space and put in lower
    case: a [c/] prefix divides the value by 100 and is removed; then a tail
    [/day] or [/kwh] leaves the value as it is, a tail [/mth] or [/month]
    scales it by days over the days of the period-start month, a tail
    [/year] (so also [/meter/year]) scales it by days/365, and any other
    unit leaves it as it is; the example of February 2024 gives 10 * 15/29;
    the result does not depend on the case of the unit or on white space
    before and after it (white space inside the unit is kept and counts). *)
Theorem parse_rate_rules (unit : string) (value : Q) (days : Z) (billing_start : date) :
  let u := text.lower (text.strip unit) in
  let cents := text.startswith u "c/" in
  let tail := if cents then text.drop 2 u else u in
  let v := if cents then (value / 100)%Q else value in
  let r := _parse_rate (Some unit) value days billing_start in
  let month_days := cal.month_days (year billing_start) (month billing_start) in
  (text.endswith tail "/day" = true ∨ text.endswith tail "/kwh" = true → r = v)
  ∧ (text.endswith tail "/mth" = true ∨ text.endswith tail "/month" = true →
     r = (v * (inject_Z days / inject_Z month_days))%Q)
  ∧ (text.endswith tail "/year" = true → r = (v * (inject_Z days / 365))%Q)
  ∧ (text.endswith tail "/meter/year" = true → text.endswith tail "/year" = true)
  ∧ (text.endswith tail "/day" = false → text.endswith tail "/kwh" = false →
     text.endswith tail "/mth" = false → text.endswith tail "/month" = false →
     text.endswith tail "/year" = false → r = v)
  ∧ (_parse_rate (Some "$/kVA/Mth") 10 15 {| year := 2024; month := 2; day := 1 |}
     == 10 * 15 / 29)%Q
  ∧ _parse_rate (Some (text.lower unit)) value days billing_start = r
  ∧ (∀ unit', text.strip unit' = text.strip unit →
              _parse_rate (Some unit') value days billing_start = r)
  ∧ (∀ before after, all_space before = true → all_space after = true →
       _parse_rate (Some (before +:+ unit +:+ after)) value days billing_start = r).
Proof.
  cbn zeta.
  repeat match goal with |- _ ∧ _ => split end.
  6: by vm_compute.
  6: { unfold _parse_rate. by rewrite strip_lower, lower_idemp. }
  6: { intros unit' E. unfold _parse_rate. by rewrite E. }
  6: { intros before after Hb Ha. unfold _parse_rate.
       by rewrite (strip_surrounding_space before unit after Hb Ha). }
  4: { intros H. by apply (endswith_trans _ _ _ H). }
  all: unfold _parse_rate;
    destruct (text.startswith (text.lower (text.strip unit)) "c/");
    match goal with
    | |- context [text.endswith ?t "/day"] =>
        destruct (text.endswith t "/day") eqn:Hday;
        destruct (text.endswith t "/kwh") eqn:Hkwh;
        destruct (text.endswith t "/mth") eqn:Hmth;
        destruct (text.endswith t "/month") eqn:Hmonth;
        destruct (text.endswith t "/meter/year") eqn:Hmy;
        destruct (text.endswith t "/year") eqn:Hyear
    end;
    cbn [orb]; try suffix_clash; try done;
    try (by intros [?|?]).
Qed.

(** C6, the claim as stated, fails: white space inside the unit is not
    ignored.  [$/kVA/ Mth] is not prorated (it does not end in [/mth]) and
    [c /kWh] is not taken as cents (it does not start with [c/]), though
    each differs from [$/kVA/Mth] and [c/kWh] in spaces only. *)
Lemma parse_rate_inner_space :
  let feb := {| year := 2024; month := 2; day := 1 |} in
  (without_spaces "$/kVA/ Mth" = without_spaces "$/kVA/Mth"
   ∧ _parse_rate (Some "$/kVA/ Mth") 10 15 feb = 10%Q
   ∧ (_parse_rate (Some "$/kVA/Mth") 10 15 feb == 150 # 29)%Q)
  ∧ (without_spaces "c /kWh" = without_spaces "c/kWh"
     ∧ _parse_rate (Some "c /kWh") 25 30 feb = 25%Q
     ∧ (_parse_rate (Some "c/kWh") 25 30 feb == 25 # 100)%Q)
  ∧ ¬ (∀ unit unit' value days billing_start,
         without_spaces unit = without_spaces unit' →
         (_parse_rate (Some unit) value days billing_start
          == _parse_rate (Some unit') value days billing_start)%Q).
Proof.
  intros feb. split; [by vm_compute|]. split; [by vm_compute|].
  intros H. specialize (H "$/kVA/ Mth" "$/kVA/Mth" 10%Q 15 feb eq_refl).
  by vm_compute in H.
Qed.

(** The specification's first example: 25 c/kWh is 0.25 dollars per kWh,
    whatever the length of the period; and a unit the rules do not know
    keeps its value. *)
Example parse_rate_cents_per_kwh :
  (_parse_rate (Some "c/kWh") 25 30 {| year := 2024; month := 1; day := 1 |} == 25 # 100)%Q
  ∧ _parse_rate (Some " $/Meter/Year ") 730 73 {| year := 2024; month := 1; day := 1 |}
    = (730 * (inject_Z 73 / 365))%Q
  ∧ _parse_rate (Some "$/widget") 7 30 {| year := 2024; month := 1; day := 1 |} = 7%Q.
Proof. by vm_compute. Qed.

Lemma parse_rate_rules_witness :
  let feb := {| year := 2024; month := 2; day := 1 |} in
  (text.endswith (text.lower (text.strip "$/kVA/Mth")) "/mth" = true
   ∨ text.endswith (text.lower (text.strip "$/kVA/Mth")) "/month" = true)
  ∧ _parse_rate (Some "$/kVA/Mth") 10 15 feb = (10 * (inject_Z 15 / inject_Z 29))%Q.
Proof.
  intros feb.
  assert (H : text.endswith (text.lower (text.strip "$/kVA/Mth")) "/mth" = true
              ∨ text.endswith (text.lower (text.strip "$/kVA/Mth")) "/month" = true)
    by (left; vm_compute; reflexivity).
  split; [exact H|].
  exact (proj1 (proj2 (parse_rate_rules "$/kVA/Mth" 10 15 feb)) H).
Defined.

(** ** The expression evaluator *)

Section EvalFacts.

Context (rt : runtime) (variables : gmap string value).

Lemma raises_bind_l {A B} (m : result A) (f : A → result B) :
  raises m → raises (m ≫= f).
Proof. intros [e ->]. by exists e. Qed.

Lemma raises_bind_r {A B} (m : result A) (f : A → result B) :
  (∀ a, m = Ok a → raises (f a)) → raises (m ≫= f).
Proof. intros H. destruct m as [a|e]; [by apply H | by exists e]. Qed.

Lemma mapM_raises {A B} (f : A → result B) (l : list A) (x : A) :
  x ∈ l → raises (f x) → raises (mapM f l).
Proof.
  intros Hx Hf. induction l as [|y l IH]; [by apply elem_of_nil in Hx|].
  cbn [mapM]. apply elem_of_cons in Hx as [->|Hx].
  - by apply raises_bind_l.
  - apply raises_bind_r. intros b _. apply raises_bind_l. by apply IH.
Qed.

Lemma mapM_ok_cons {A B} (f : A → result B) (x : A) (l : list A) (ys : list B) :
  mapM f (x :: l) = Ok ys →
  ∃ y ys', ys = y :: ys' ∧ f x = Ok y ∧ mapM f l = Ok ys'.
Proof.
  cbn [mapM]. destruct (f x) as [y|]; [|done]. cbn.
  destruct (mapM f l) as [ys'|]; [|done]. cbn.
  intros [= <-]. by exists y, ys'.
Qed.

(** A comparator that raises makes the loop raise, wherever it stands
    and whatever the comparisons before it gave. *)
Lemma compare_loop_comparator_raises (ev : ast.node → result value)
    (comparators : list ast.node) (ops : list ast.cmpop) (left : value)
    (results : list value) (c : ast.node) :
  c ∈ take (length ops) comparators → raises (ev c) →
  raises (compare_loop rt ev comparators ops left results).
Proof.
  intros Hc Hr. revert ops left results Hc.
  induction comparators as [|c0 cs IH]; intros [|op ops] left results Hc;
    try (by apply elem_of_nil in Hc).
  cbn [length take] in Hc. cbn [compare_loop].
  apply elem_of_cons in Hc as [->|Hc].
  - by apply raises_bind_l.
  - apply raises_bind_r. intros v _. apply raises_bind_r. intros r _. by apply IH.
Qed.

Lemma compare_loop_operator_raises (ev : ast.node → result value)
    (comparators : list ast.node) (ops : list ast.cmpop) (left : value)
    (results : list value) (op : ast.cmpop) :
  op ∈ take (length comparators) ops → supported_cmpop op = false →
  raises (compare_loop rt ev comparators ops left results).
Proof.
  intros Hop Hs. revert ops left results Hop.
  induction comparators as [|c0 cs IH]; intros [|o ops] left results Hop;
    try (by apply elem_of_nil in Hop).
  cbn [length take] in Hop. cbn [compare_loop].
  apply raises_bind_r. intros v _.
  apply elem_of_cons in Hop as [<-|Hop].
  - apply raises_bind_l. destruct op; try discriminate Hs; by eexists.
  - apply raises_bind_r. intros r _. by apply IH.
Qed.

(** When every comparator has a value, the loop makes the comparisons of
    the adjacent pairs, in order. *)
Lemma compare_loop_pairwise (ev : ast.node → result value)
    (comparators : list ast.node) (ops : list ast.cmpop) (left : value)
    (results vs : list value) :
  mapM ev comparators = Ok vs →
  compare_loop rt ev comparators ops left results
  = rs ← pairwise rt ops left vs; Ok (results ++ rs).
Proof.
  revert ops left results vs.
  induction comparators as [|c0 cs IH]; intros ops left results vs Hvs.
  - cbn in Hvs. injection Hvs as <-.
    destruct ops; cbn; by rewrite app_nil_r.
  - apply mapM_ok_cons in Hvs as (v & vs' & -> & Hv & Hvs').
    destruct ops as [|op ops]; cbn [compare_loop pairwise].
    + cbn. by rewrite app_nil_r.
    + rewrite Hv. cbn. destruct (compare_op rt op left v) as [r|]; [|done]. cbn.
      rewrite (IH _ _ _ _ Hvs').
      destruct (pairwise rt ops v vs') as [rs|]; [|done]. cbn.
      by rewrite <- app_assoc.
Qed.

Lemma py_all_true (xs : list value) :
  py_all rt xs = Ok true ↔ Forall (λ x, py_truth rt x = Ok true) xs.
Proof.
  induction xs as [|x xs IH]; cbn [py_all].
  - split; [by constructor | done].
  - rewrite Forall_cons, <- IH.
    destruct (py_truth rt x) as [[]|]; cbn; split; try done; by intros [??].
Qed.

(** A sub-expression that is always evaluated and raises makes the node
    raise. *)
Lemma eval_strict_child (tree c : ast.node) :
  c ∈ strict_children tree → raises (_eval rt variables c) →
  raises (_eval rt variables tree).
Proof.
  intros Hc Hr. destruct tree; cbn [strict_children] in Hc;
    try (by apply elem_of_nil in Hc); cbn [_eval].
  - by apply list_elem_of_singleton in Hc as ->.
  - apply elem_of_cons in Hc as [->|Hc]; [by apply raises_bind_l|].
    apply list_elem_of_singleton in Hc as ->.
    apply raises_bind_r. intros a _. by apply raises_bind_l.
  - apply list_elem_of_singleton in Hc as ->. by apply raises_bind_l.
  - apply elem_of_cons in Hc as [->|Hc]; [by apply raises_bind_l|].
    apply raises_bind_r. intros f _.
    apply elem_of_app in Hc as [Hc|Hc].
    + apply raises_bind_l. by eapply mapM_raises.
    + apply raises_bind_r. intros args' _. apply raises_bind_l.
      apply list_elem_of_fmap in Hc as ([k n] & -> & Hkw).
      eapply mapM_raises; [exact Hkw|]. by apply raises_bind_l.
  - apply list_elem_of_singleton in Hc as ->. by apply raises_bind_l.
  - apply elem_of_cons in Hc as [->|Hc]; [by apply raises_bind_l|].
    apply raises_bind_r. intros a _. apply raises_bind_l.
    by eapply compare_loop_comparator_raises.
  - apply raises_bind_l. by eapply mapM_raises.
Qed.

Lemma rejected_raises (tree : ast.node) :
  Rejected rt variables tree → raises (_eval rt variables tree).
Proof.
  induction 1 as [id Hv Hf Hm | n Hk | l op r Hop | op e Hop
                 | l ops cs op Hin Hop | n e He | tree c Hc _ IH
                 | test body orelse v Ht Hv _ IH | test body orelse v Ht Hv _ IH].
  - cbn [_eval]. rewrite Hv, Hf, bool_decide_eq_false_2 by done. by eexists.
  - destruct n; try discriminate Hk; by eexists.
  - cbn [_eval]. apply raises_bind_r. intros a _. apply raises_bind_r. intros b _.
    destruct op; try discriminate Hop; by eexists.
  - cbn [_eval]. apply raises_bind_r. intros a _.
    destruct op; try discriminate Hop; by eexists.
  - cbn [_eval]. apply raises_bind_r. intros a _. apply raises_bind_l.
    by eapply compare_loop_operator_raises.
  - by exists e.
  - by eapply eval_strict_child.
  - cbn [_eval]. rewrite Ht. cbn. by rewrite Hv.
  - cbn [_eval]. rewrite Ht. cbn. by rewrite Hv.
Qed.

End EvalFacts.

Lemma not_spec_name_allowed (rt : runtime) (variables : gmap string value) (id : string) :
  ¬ spec_name_allowed rt variables id →
  variables !! id = None ∧ allowed_funcs rt id = None.
Proof.
  unfold spec_name_allowed, allowed_funcs. intros H. split.
  - destruct (variables !! id) eqn:E; [|done]. destruct H. left. by eexists.
  - rewrite bool_decide_eq_false_2; [done|].
    intros [?|?]%elem_of_app; destruct H; auto.
Qed.

Lemma eager_child (tree c : ast.node) : c ∈ children tree → eager tree → eager c.
Proof. intros Hc He n Hn. apply He. by eapply occurs_child. Qed.

(** Without conditionals, a failing node anywhere in the expression is
    reached. *)
Lemma eager_must_fail_rejected (rt : runtime) (variables : gmap string value)
    (tree : ast.node) :
  eager tree → must_fail rt variables tree → Rejected rt variables tree.
Proof.
  intros He (n & Hocc & Hbad). induction Hocc as [|tree c Hc Hocc IH].
  - destruct Hbad as [(id & -> & Hid & Hm)|Hk].
    + apply not_spec_name_allowed in Hid as [??]. by apply rejected_name.
    + by apply rejected_kind.
  - specialize (IH (eager_child _ _ Hc He)).
    destruct (allowed_kind tree) eqn:Hk; [|by apply rejected_kind].
    pose proof (He tree (occurs_here tree)) as Ht.
    apply (rejected_strict _ _ tree c); [|done].
    destruct tree; try discriminate Hk; try done.
    cbn [children strict_children] in *. by rewrite Ht, firstn_all.
Qed.

(** Refutes a membership that evaluates to false. *)
Ltac refute_elem H :=
  match type of H with
  | ?P =>
      let X := fresh in
      assert (X : bool_decide P = false) by (vm_compute; reflexivity);
      exact (bool_decide_eq_false_1 P X H)
  end.

(** C1, the claim as stated, fails: the branch of a conditional that the
    test does not select is neither checked nor evaluated, so
    [1 if 1 else foo] and [1 if 1 else total_usage.real] return 1.0 although
    the one references the unknown identifier [foo] and the other holds an
    attribute access; and [math] is an accepted name, so [1 == math]
    returns 0.0. *)
Lemma safe_eval_unreached_branch :
  let one := ast.Constant (VInt 1) in
  let name := ast.Expression (ast.IfExp one one (ast.Name "foo")) in
  let attr := ast.Expression
                (ast.IfExp one one (ast.Attribute (ast.Name "total_usage") "real")) in
  let module := ast.Expression (ast.Compare one [ast.Eq] [ast.Name "math"]) in
  let variables : gmap string value := {[ "total_usage" := VFloat 5 ]} in
  (spec_must_fail py.cpython variables name
   ∧ _safe_eval py.cpython (Some name) variables = Ok 1%Q)
  ∧ (spec_must_fail py.cpython variables attr
     ∧ _safe_eval py.cpython (Some attr) variables = Ok 1%Q)
  ∧ (spec_must_fail py.cpython variables module
     ∧ _safe_eval py.cpython (Some module) variables = Ok 0%Q)
  ∧ ¬ (∀ variables tree,
         spec_must_fail py.cpython variables tree →
         raises (_safe_eval py.cpython (Some tree) variables)).
Proof.
  intros one name attr module variables.
  assert (Hname : spec_must_fail py.cpython variables name).
  { exists (ast.Name "foo"). split.
    - eapply occurs_child; [by left|]. eapply occurs_child; [|apply occurs_here].
      cbn. do 2 right. by left.
    - left. exists "foo". split; [done|].
      intros [[v Hv]|[H|H]]; [by vm_compute in Hv|..]; refute_elem H. }
  assert (Hattr : spec_must_fail py.cpython variables attr).
  { eexists (ast.Attribute _ _). split.
    - eapply occurs_child; [by left|]. eapply occurs_child; [|apply occurs_here].
      cbn. do 2 right. by left.
    - by right. }
  assert (Hmodule : spec_must_fail py.cpython variables module).
  { exists (ast.Name "math"). split.
    - eapply occurs_child; [by left|]. eapply occurs_child; [|apply occurs_here].
      cbn. right. by left.
    - left. exists "math". split; [done|].
      intros [[v Hv]|[H|H]]; [by vm_compute in Hv|..]; refute_elem H. }
  split; [by split|]. split; [by split|]. split; [by split|].
  intros H. destruct (H variables name Hname) as [e He]. by vm_compute in He.
Qed.

(** C1, amended: [_safe_eval] raises, and so returns no value, when the
    string does not parse, when the conversion of the result to a float
    raises, and whenever evaluation reaches a failure ([Rejected]): an
    identifier outside the variables, the allowed functions and the name
    [math]; a node kind outside the allowed set (attribute access,
    subscripting, lambdas, comprehensions, ...) or an operator without a
    case; an operation that raises.  Every sub-expression is reached except
    the branch of a conditional its test does not select: in an expression
    without conditionals such an identifier or node kind anywhere makes the
    evaluation fail. *)
Theorem safe_eval_rejects (rt : runtime) (variables : gmap string value) :
  raises (_safe_eval rt None variables)
  ∧ (∀ tree, Rejected rt variables tree → raises (_safe_eval rt (Some tree) variables))
  ∧ (∀ tree, eager tree → must_fail rt variables tree →
             raises (_safe_eval rt (Some tree) variables))
  ∧ (∀ tree v, _eval rt variables tree = Ok v → raises (py_float rt v) →
               raises (_safe_eval rt (Some tree) variables))
  ∧ (∀ tree x, _safe_eval rt (Some tree) variables = Ok x →
               ¬ Rejected rt variables tree).
Proof.
  assert (H : ∀ tree, Rejected rt variables tree →
                      raises (_safe_eval rt (Some tree) variables)).
  { intros tree Hr. cbn [_safe_eval]. apply raises_bind_l. by apply rejected_raises. }
  split; [by eexists|]. split; [done|]. split; [|split].
  - intros tree He Hf. apply H. by apply eager_must_fail_rejected.
  - intros tree v Hv Hf. cbn [_safe_eval]. by rewrite Hv.
  - intros tree x Hx Hr. destruct (H tree Hr) as [e He]. congruence.
Qed.

Lemma safe_eval_rejects_witness :
  let tree := ast.Expression
                (ast.BinOp (ast.Name "foo") ast.Add (ast.Constant (VInt 1))) in
  Rejected py.cpython ∅ tree ∧ raises (_safe_eval py.cpython (Some tree) ∅).
Proof.
  intros tree.
  assert (H : Rejected py.cpython ∅ tree).
  { eapply rejected_strict; [by left|].
    eapply rejected_strict; [by left|].
    by apply rejected_name. }
  split; [exact H|].
  exact (proj1 (proj2 (safe_eval_rejects py.cpython ∅)) tree H).
Defined.

(** ** Chained comparisons *)

(** C7, the claim as stated, fails: in [1 < 0 < 1/0] the first pair is
    false, yet the second comparator is evaluated and its division by zero
    makes the whole chain raise instead of returning False. *)
Lemma chain_not_short_circuit :
  let c (n : Z) := ast.Constant (VInt n) in
  let first_pair := ast.Compare (c 1) [ast.Lt] [c 0] in
  let chain := ast.Compare (c 1) [ast.Lt; ast.Lt] [c 0; ast.BinOp (c 1) ast.Div (c 0)] in
  _eval py.cpython ∅ first_pair = Ok (VBool false)
  ∧ _eval py.cpython ∅ chain = Raise ZeroDivisionError
  ∧ _safe_eval py.cpython (Some (ast.Expression chain)) ∅ ≠ Ok 0%Q.
Proof. by vm_compute. Qed.

(** C7, amended: a chained comparison is evaluated eagerly.  Every
    comparator that has an operator is evaluated, left to right, so a
    comparator that raises makes the chain raise even after a pair that is
    false; when all operands have values the result is [all] of the
    comparisons of the adjacent pairs, which is True iff every pair holds. *)
Theorem chain_compare_eager (rt : runtime) (variables : gmap string value)
    (l : ast.node) (ops : list ast.cmpop) (comparators : list ast.node) :
  (∀ c, c ∈ take (length ops) comparators → raises (_eval rt variables c) →
        raises (_eval rt variables (ast.Compare l ops comparators)))
  ∧ (∀ v vs, _eval rt variables l = Ok v → mapM (_eval rt variables) comparators = Ok vs →
             _eval rt variables (ast.Compare l ops comparators)
             = rs ← pairwise rt ops v vs; b ← py_all rt rs; Ok (VBool b))
  ∧ (∀ rs, py_all rt rs = Ok true ↔ Forall (λ r, py_truth rt r = Ok true) rs).
Proof.
  split; [|split].
  - intros c Hc Hr. apply (eval_strict_child _ _ _ c); [|done]. by right.
  - intros v vs Hv Hvs. cbn [_eval]. rewrite Hv. cbn.
    rewrite (compare_loop_pairwise _ _ _ _ _ _ vs Hvs).
    by destruct (pairwise rt ops v vs).
  - apply py_all_true.
Qed.

Lemma chain_compare_eager_witness :
  let c (n : Z) := ast.Constant (VInt n) in
  let bad := ast.BinOp (c 1) ast.Div (c 0) in
  (bad ∈ take (length [ast.Lt; ast.Lt]) [c 0; bad]
   ∧ raises (_eval py.cpython ∅ bad))
  ∧ raises (_eval py.cpython ∅ (ast.Compare (c 1) [ast.Lt; ast.Lt] [c 0; bad])).
Proof.
  intros c bad.
  assert (Hin : bad ∈ take (length [ast.Lt; ast.Lt]) [c 0; bad]) by (right; left).
  assert (Hr : raises (_eval py.cpython ∅ bad)) by (by eexists).
  split; [by split|].
  exact (proj1 (chain_compare_eager py.cpython ∅ (c 1) [ast.Lt; ast.Lt] [c 0; bad])
           bad Hin Hr).
Defined.

(** ** The bill *)

Section BillFacts.

Context (rt : runtime).

Lemma calculate_bill_with_tariff (db : database) (customer_id tariff_version_id : Z)
    (start end_ : datetime) (doc : tariff) :
  calculate_bill rt (with_tariff db tariff_version_id doc) customer_id tariff_version_id
    start end_
  = let u := aggregate_usage doc (select_readings db customer_id start end_) in
    let st := bill_components rt u (billing_days start end_) start end_ (components doc) in
    {| total_cost := round4 st.2; breakdown := st.1; units := "AUD" |}.
Proof.
  unfold calculate_bill, with_tariff. cbn [tariff_versions].
  rewrite lookup_insert_eq. cbn [canonical_json default from_option].
  change (select_readings _ customer_id start end_)
    with (select_readings db customer_id start end_).
  unfold billing_days. cbn zeta. by destruct (bill_components _ _ _ _ _ _).
Qed.

Lemma aggregate_usage_time_bands (doc doc' : tariff) (readings : list meter_reading) :
  time_bands doc = time_bands doc' →
  aggregate_usage doc readings = aggregate_usage doc' readings.
Proof.
  intros E. unfold aggregate_usage.
  assert (H : add_reading doc = add_reading doc'); [|by rewrite H].
  unfold add_reading, assign_band. by rewrite E.
Qed.

(** A component whose formula raises leaves the loop state as it is. *)
Lemma bill_component_raises (u : usage_totals) (days : Z) (start end_ : datetime)
    (st : gmap string entry * Q) (comp : component) (p : option ast.node) :
  c_calculation comp = Some p →
  raises (_safe_eval rt p (vars_for_expr u days start end_ comp)) →
  bill_component rt u days start end_ st comp = st.
Proof.
  intros Hc [e He]. unfold bill_component. rewrite Hc, He.
  destruct (c_id comp); [|done].
  destruct (bool_decide _); [done|].
  by destruct (out_of_season start end_ comp).
Qed.

(** What one turn of the component loop does, in terms of [included_cost]. *)
Lemma bill_component_included (u : usage_totals) (days : Z) (start end_ : datetime)
    (st : gmap string entry * Q) (comp : component) :
  let st' := bill_component rt u days start end_ st comp in
  match included_cost rt u days start end_ comp with
  | Some (id, c) =>
      st'.2 = (st.2 + c)%Q ∧ cost <$> st'.1 = <[id := round4 c]> (cost <$> st.1)
  | None => st' = st
  end.
Proof.
  unfold bill_component, included_cost. cbn zeta.
  destruct (c_id comp) as [comp_id|]; cbn; [|done].
  destruct (bool_decide (comp_id = "")); cbn; [done|].
  destruct (out_of_season start end_ comp); cbn; [done|].
  destruct (c_calculation comp) as [expr|]; cbn; [|done].
  destruct (_safe_eval rt expr _) as [c|]; [|done].
  destruct (units_and_label u days _) as [uu ul]. cbn.
  by rewrite fmap_insert.
Qed.

Lemma bill_components_included (u : usage_totals) (days : Z) (start end_ : datetime)
    (comps : list component) (st : gmap string entry * Q) :
  let st' := foldl (bill_component rt u days start end_) st comps in
  let costs := omap (included_cost rt u days start end_) comps in
  st'.2 = foldl Qplus st.2 costs.*2
  ∧ cost <$> st'.1 = foldl (λ m ic, <[ic.1 := round4 ic.2]> m) (cost <$> st.1) costs.
Proof.
  cbn zeta. revert st. induction comps as [|comp comps IH]; intros st; [done|].
  cbn [foldl omap list_omap].
  pose proof (bill_component_included u days start end_ st comp) as H. cbn zeta in H.
  destruct (included_cost rt u days start end_ comp) as [[id c]|] eqn:E.
  - destruct H as [H2 H1]. cbn [fmap list_fmap foldl].
    destruct (IH (bill_component rt u days start end_ st comp)) as [-> ->].
    by rewrite H2, H1.
  - rewrite H. apply IH.
Qed.

(** An id of the breakdown was there before the loop or is the id of one
    of the components. *)
Lemma bill_components_ids (u : usage_totals) (days : Z) (start end_ : datetime)
    (comps : list component) (st : gmap string entry * Q) (id : string) :
  is_Some ((foldl (bill_component rt u days start end_) st comps).1 !! id) →
  is_Some (st.1 !! id) ∨ ∃ c, c ∈ comps ∧ c_id c = Some id.
Proof.
  revert st. induction comps as [|comp comps IH]; intros st; cbn [foldl]; [by left|].
  intros [H|(c & Hin & Hc)]%IH; [|right; exists c; split; [by right|done]].
  revert H. unfold bill_component.
  destruct (c_id comp) as [comp_id|] eqn:Hid; [|by left].
  destruct (bool_decide (comp_id = "")); [by left|].
  destruct (out_of_season start end_ comp); [by left|].
  destruct (c_calculation comp) as [expr|]; [|by left].
  destruct (_safe_eval rt expr _); [|by left].
  destruct (units_and_label u days _) as [uu ul]. cbn [fst].
  destruct (decide (comp_id = id)) as [->|Hne].
  - intros _. right. exists comp. split; [by left|done].
  - rewrite lookup_insert_ne by done. by left.
Qed.

End BillFacts.

(** C4: a component whose calculation fails to evaluate is skipped: the
    loop state (breakdown and running total) is the same after it as
    before, and the bill of the whole document equals the bill of the
    document without that component, so every other component is billed as
    usual and the calculation returns; the id of the component is not in
    the breakdown, unless another component carries the same id. *)
Theorem failing_component_skipped (rt : runtime) (db : database)
    (customer_id tariff_version_id : Z) (start end_ : datetime)
    (bands : list time_band) (before after : list component) (comp : component)
    (p : option ast.node) :
  let doc cs := {| components := cs; time_bands := bands |} in
  let u := aggregate_usage (doc []) (select_readings db customer_id start end_) in
  let days := billing_days start end_ in
  let bill cs := calculate_bill rt (with_tariff db tariff_version_id (doc cs))
                   customer_id tariff_version_id start end_ in
  c_calculation comp = Some p →
  raises (_safe_eval rt p (vars_for_expr u days start end_ comp)) →
  (∀ st, bill_component rt u days start end_ st comp = st)
  ∧ bill (before ++ comp :: after) = bill (before ++ after)
  ∧ (∀ id, c_id comp = Some id →
           (∀ c, c ∈ before ++ after → c_id c ≠ Some id) →
           breakdown (bill (before ++ comp :: after)) !! id = None).
Proof.
  intros doc u days bill Hc Hr.
  assert (Hst : ∀ st, bill_component rt u days start end_ st comp = st)
    by (intros st; by eapply bill_component_raises).
  assert (Hbill : bill (before ++ comp :: after) = bill (before ++ after)).
  { unfold bill. rewrite !calculate_bill_with_tariff. cbn zeta.
    rewrite !(aggregate_usage_time_bands _ (doc [])) by done.
    fold u. fold days. unfold bill_components. cbn [components doc].
    by rewrite !foldl_app; cbn [foldl]; rewrite Hst. }
  split; [done|]. split; [done|].
  intros id Hid Hothers. rewrite Hbill. unfold bill.
  rewrite calculate_bill_with_tariff. cbn zeta. cbn [breakdown components doc].
  unfold bill_components.
  match goal with
  | |- (foldl (bill_component rt ?u' ?d' start end_) ?st ?cs).1 !! id = None =>
      destruct ((foldl (bill_component rt u' d' start end_) st cs).1 !! id) eqn:E;
        [|done];
      destruct (bill_components_ids rt u' d' start end_ cs st id)
        as [H|(c & Hin & Hc')]
  end.
  - by rewrite E.
  - cbn [fst] in H. rewrite lookup_empty in H. by apply is_Some_None in H.
  - by destruct (Hothers c Hin).
Qed.

Lemma failing_component_skipped_witness :
  let u := aggregate_usage (example.doc [])
             (select_readings example.db 1 example.start example.end_) in
  let days := billing_days example.start example.end_ in
  (c_calculation example.broken
   = Some (Some (ast.Expression
                   (ast.BinOp (ast.Name "rate") ast.Mult (ast.Name "undefined_var"))))
   ∧ raises (_safe_eval py.cpython
               (Some (ast.Expression
                        (ast.BinOp (ast.Name "rate") ast.Mult (ast.Name "undefined_var"))))
               (vars_for_expr u days example.start example.end_ example.broken)))
  ∧ calculate_bill py.cpython
      (with_tariff example.db 7 (example.doc ([] ++ example.broken :: [example.energy])))
      1 7 example.start example.end_
    = calculate_bill py.cpython
        (with_tariff example.db 7 (example.doc ([] ++ [example.energy])))
        1 7 example.start example.end_.
Proof.
  intros u days.
  assert (Hc : c_calculation example.broken
               = Some (Some (ast.Expression
                   (ast.BinOp (ast.Name "rate") ast.Mult (ast.Name "undefined_var")))))
    by reflexivity.
  assert (Hr : raises (_safe_eval py.cpython
               (Some (ast.Expression
                        (ast.BinOp (ast.Name "rate") ast.Mult (ast.Name "undefined_var"))))
               (vars_for_expr u days example.start example.end_ example.broken)))
    by (eexists; vm_compute; reflexivity).
  split; [by split|].
  exact (proj1 (proj2 (failing_component_skipped py.cpython example.db 1 7
                         example.start example.end_ [] [] [example.energy]
                         example.broken _ Hc Hr))).
Defined.

(** The end-to-end scenario of the specification: 100 kWh at 10 c/kWh over
    30 days cost 10.0, and the broken sibling changes nothing. *)
Example end_to_end_bill :
  let r := calculate_bill py.cpython
             (with_tariff example.db 7 (example.doc [example.broken; example.energy]))
             1 7 example.start example.end_ in
  (total_cost r == 10)%Q
  ∧ dom (breakdown r) = {[ "energy" ]}
  ∧ (cost <$> breakdown r !! "energy") = Some (round4 10).
Proof. cbn zeta. split; [by vm_compute|]. split; by vm_compute. Qed.

(** C5, the claim as stated, fails: with no tariff version in the database
    (and no readings either) [calculate_bill] returns the bill with total
    cost 0 and an empty breakdown. *)
Lemma missing_tariff_gives_zero_bill :
  calculate_bill py.cpython example.empty_db 1 7 example.start example.end_
  = {| total_cost := 0; breakdown := ∅; units := "AUD" |}
  ∧ ¬ (∀ rt db customer_id tariff_version_id start end_,
         tariff_versions db !! tariff_version_id = None
         ∨ select_readings db customer_id start end_ = [] →
         let r := calculate_bill rt db customer_id tariff_version_id start end_ in
         ¬ ((total_cost r == 0)%Q ∧ breakdown r = ∅)).
Proof.
  split; [done|]. intros H.
  apply (H py.cpython example.empty_db 1 7 example.start example.end_); [by left|].
  by split.
Qed.

(** C5, amended: neither case is an error.  When the tariff version is
    missing [calculate_bill] returns total cost 0.0, an empty breakdown and
    units AUD; when the period holds no readings it returns the bill of the
    components evaluated with every usage total at zero. *)
Theorem bill_without_tariff_or_readings (rt : runtime) (db : database)
    (customer_id tariff_version_id : Z) (start end_ : datetime) (doc : tariff) :
  (tariff_versions db !! tariff_version_id = None →
   calculate_bill rt db customer_id tariff_version_id start end_ = no_tariff_bill)
  ∧ (select_readings db customer_id start end_ = [] →
     calculate_bill rt (with_tariff db tariff_version_id doc) customer_id
       tariff_version_id start end_
     = let st := bill_components rt no_usage (billing_days start end_) start end_
                   (components doc) in
       {| total_cost := round4 st.2; breakdown := st.1; units := "AUD" |}).
Proof.
  split.
  - intros H. unfold calculate_bill. by rewrite H.
  - intros H. rewrite calculate_bill_with_tariff. by rewrite H.
Qed.

Lemma bill_without_tariff_or_readings_witness :
  (tariff_versions example.empty_db !! 7 = None
   ∧ calculate_bill py.cpython example.empty_db 1 7 example.start example.end_
     = no_tariff_bill)
  ∧ (select_readings example.empty_db 1 example.start example.end_ = []
     ∧ total_cost (calculate_bill py.cpython
                     (with_tariff example.empty_db 7 (example.doc [example.energy]))
                     1 7 example.start example.end_)
       = round4 (bill_components py.cpython no_usage
                   (billing_days example.start example.end_)
                   example.start example.end_ [example.energy]).2).
Proof.
  pose proof (bill_without_tariff_or_readings py.cpython example.empty_db 1 7
                example.start example.end_ (example.doc [example.energy])) as [H1 H2].
  split.
  - split; [reflexivity|]. apply H1. reflexivity.
  - split; [reflexivity|]. rewrite H2; reflexivity.
Defined.

(** C10: the returned [total_cost] is the sum of the unrounded costs of the
    components that enter the bill, rounded to 4 decimal places once at the
    end, while each breakdown entry holds its own cost rounded on its own;
    so [total_cost] need not be the sum of the [cost] values of the
    breakdown: two components of cost 0.00004 give total 0.0001 and
    entries 0.0. *)
Theorem total_cost_rounded_once (rt : runtime) (db : database)
    (customer_id tariff_version_id : Z) (start end_ : datetime) (doc : tariff) :
  let r := calculate_bill rt (with_tariff db tariff_version_id doc) customer_id
             tariff_version_id start end_ in
  let u := aggregate_usage doc (select_readings db customer_id start end_) in
  let costs := omap (included_cost rt u (billing_days start end_) start end_)
                 (components doc) in
  total_cost r = round4 (foldl Qplus 0%Q costs.*2)
  ∧ cost <$> breakdown r = foldl (λ m ic, <[ic.1 := round4 ic.2]> m) ∅ costs
  ∧ (let r' := calculate_bill py.cpython
                 (with_tariff example.db 7
                    (example.doc [example.tiny "a"; example.tiny "b"]))
                 1 7 example.start example.end_ in
     (total_cost r' == 1 # 10000)%Q
     ∧ (breakdown_sum (breakdown r') == 0)%Q
     ∧ ¬ (total_cost r' == breakdown_sum (breakdown r'))%Q).
Proof.
  cbn zeta. rewrite calculate_bill_with_tariff. cbn zeta. cbn [total_cost breakdown].
  unfold bill_components.
  pose proof (bill_components_included rt
                (aggregate_usage doc (select_readings db customer_id start end_))
                (billing_days start end_) start end_ (components doc) (∅, 0%Q)) as H.
  cbn zeta in H. destruct H as [H2 H1]. cbn [fst snd] in H1, H2.
  rewrite fmap_empty in H1.
  split; [by rewrite H2|]. split; [done|].
  split; [by vm_compute|]. split; by vm_compute.
Qed.

(** ** Recomputation *)

Lemma latest_run_snoc (runs : list calc_run) (r : calc_run)
    (customer_id tariff_version_id : Z) :
  latest_run (runs ++ [r]) customer_id tariff_version_id
  = if bool_decide (cr_customer_id r = customer_id
                    ∧ cr_tariff_version_id r = tariff_version_id)
    then match latest_run runs customer_id tariff_version_id with
         | Some b => if cr_id b <? cr_id r then Some r
                     else latest_run runs customer_id tariff_version_id
         | None => Some r
         end
    else latest_run runs customer_id tariff_version_id.
Proof. unfold latest_run. by rewrite foldl_app. Qed.

Lemma latest_run_elem (runs : list calc_run) (customer_id tariff_version_id : Z)
    (b : calc_run) :
  latest_run runs customer_id tariff_version_id = Some b → b ∈ runs.
Proof.
  revert b. induction runs as [|r runs IH] using rev_ind; intros b; [done|].
  rewrite latest_run_snoc. rewrite elem_of_app, list_elem_of_singleton.
  destruct (bool_decide _); [|by auto].
  destruct (latest_run runs customer_id tariff_version_id) as [b0|].
  - destruct (cr_id b0 <? cr_id r); [|by auto]. intros [= <-]. by right.
  - intros [= <-]. by right.
Qed.

Lemma max_id_bound (ids : list Z) (x : Z) : x ∈ ids → x ≤ foldr Z.max 0 ids.
Proof.
  induction ids as [|y ids IH]; [by intros ?%elem_of_nil|].
  intros [->|H]%elem_of_cons; cbn; [lia|]. specialize (IH H). lia.
Qed.

(** The row a run has just stored is the latest one of its customer and
    tariff version. *)
Lemma latest_run_new (runs : list calc_run) (r : calc_run) :
  cr_id r = next_run_id runs →
  latest_run (runs ++ [r]) (cr_customer_id r) (cr_tariff_version_id r) = Some r.
Proof.
  intros Hid. rewrite latest_run_snoc, bool_decide_eq_true_2 by done.
  destruct (latest_run runs _ _) as [b|] eqn:E; [|done].
  apply latest_run_elem in E.
  assert (cr_id b ≤ foldr Z.max 0 (cr_id <$> runs))
    by (apply max_id_bound, list_elem_of_fmap; by exists b).
  unfold next_run_id in Hid.
  by destruct (Z.ltb_spec (cr_id b) (cr_id r)); [|lia].
Qed.

Lemma upsert_calc_run_again (db : database) (customer_id tariff_version_id : Z)
    (start end_ : datetime) (checksum : string) (res : calc_result) :
  let out := upsert_calc_run db customer_id tariff_version_id start end_ checksum res in
  upsert_calc_run out.2 customer_id tariff_version_id start end_ checksum res = out
  ∧ tariff_versions out.2 = tariff_versions db
  ∧ meter_reading_rows out.2 = meter_reading_rows db.
Proof.
  cbn zeta.
  destruct (upsert_calc_run db customer_id tariff_version_id start end_ checksum res)
    as [id1 db1] eqn:E0.
  cbn [snd]. unfold upsert_calc_run in E0.
  destruct (latest_run (calc_runs db) customer_id tariff_version_id) as [row|] eqn:E.
  1: destruct (result_summary_json row) as [meta|] eqn:Em.
  1: destruct (bool_decide (meta_checksum meta = checksum ∧ _)) eqn:Eb.
  1: { injection E0 as <- <-. unfold upsert_calc_run. by rewrite E, Em, Eb. }
  all: injection E0 as <- <-;
    cbn [tariff_versions meter_reading_rows]; split; [|done];
    unfold upsert_calc_run; cbn [calc_runs];
    match goal with
    | |- context [latest_run (_ ++ [?r]) _ _] =>
        let X := fresh in
        pose proof (latest_run_new (calc_runs db) r eq_refl) as X;
        cbn [cr_customer_id cr_tariff_version_id] in X; rewrite X
    end;
    cbn [result_summary_json meta_checksum meta_start meta_end cr_id];
    by rewrite bool_decide_eq_true_2.
Qed.

(** Both computations read the tariff versions and the meter readings
    only. *)
Lemma engine_reads (rt : runtime) (sha256_hexdigest : string → string)
    (repr_json : tariff → string) (str_decimal : Q → string) (str_int : Z → string)
    (db db' : database) (customer_id tariff_version_id : Z) (start end_ : datetime) :
  tariff_versions db' = tariff_versions db →
  meter_reading_rows db' = meter_reading_rows db →
  compute_checksum sha256_hexdigest repr_json str_decimal str_int db' customer_id
    tariff_version_id start end_
  = compute_checksum sha256_hexdigest repr_json str_decimal str_int db customer_id
      tariff_version_id start end_
  ∧ calculate_bill rt db' customer_id tariff_version_id start end_
    = calculate_bill rt db customer_id tariff_version_id start end_.
Proof.
  intros Ht Hm.
  unfold compute_checksum, calculate_bill, select_readings. by rewrite Ht, Hm.
Qed.

(** C8: the engine is deterministic and keeps no state of its own: the
    checksum and the bill are functions of the tariff versions, the meter
    readings and the request, so a second run on the same request, after
    the first one has stored its result, yields the same checksum and the
    same [CalcResult] (and finds the stored run again, leaving the database
    as it is). *)
Theorem recompute_identical (rt : runtime) (sha256_hexdigest : string → string)
    (repr_json : tariff → string) (str_decimal : Q → string) (str_int : Z → string)
    (req : CalcStoreRequest) (db : database) :
  let run := calculate_and_store rt sha256_hexdigest repr_json str_decimal str_int req in
  let first := run db in
  let second := run first.2 in
  resp_checksum second.1 = resp_checksum first.1
  ∧ resp_result second.1 = resp_result first.1
  ∧ resp_calc_run_id second.1 = resp_calc_run_id first.1
  ∧ second.2 = first.2.
Proof.
  cbn zeta. unfold calculate_and_store.
  set (checksum := compute_checksum _ _ _ _ db _ _ _ _).
  set (res := calculate_bill rt db _ _ _ _).
  pose proof (upsert_calc_run_again db (req_customer_id req) (req_tariff_version_id req)
                (req_start req) (req_end req) checksum res) as H.
  cbn zeta in H.
  destruct (upsert_calc_run db _ _ _ _ checksum res) as [id1 db1] eqn:E1.
  cbn [fst snd] in *. destruct H as (H & Ht & Hm).
  destruct (engine_reads rt sha256_hexdigest repr_json str_decimal str_int db db1
              (req_customer_id req) (req_tariff_version_id req) (req_start req)
              (req_end req) Ht Hm) as [-> ->].
  fold checksum. fold res. by rewrite H.
Qed.

(** * Further properties of the engine *)

(** ** The order of timestamps *)

Lemma lex_cmp_le_trans (a b c : list Z) :
  lex_cmp a b ≠ Gt → lex_cmp b c ≠ Gt → lex_cmp a c ≠ Gt.
Proof.
  revert b c. induction a as [|x a IH]; intros [|y b] [|z c]; cbn; try done.
  destruct (Z.compare_spec x y), (Z.compare_spec y z), (Z.compare_spec x z);
    try done; try lia; eauto.
Qed.

Lemma lex_cmp_le_lt_trans (a b c : list Z) :
  lex_cmp a b ≠ Gt → lex_cmp b c = Lt → lex_cmp a c = Lt.
Proof.
  revert b c. induction a as [|x a IH]; intros [|y b] [|z c]; cbn; try done.
  destruct (Z.compare_spec x y), (Z.compare_spec y z), (Z.compare_spec x z);
    try done; try lia; eauto.
Qed.

Lemma lex_cmp_gt_lt (a b : list Z) : lex_cmp a b = Gt → lex_cmp b a = Lt.
Proof.
  revert b. induction a as [|x a IH]; intros [|y b]; cbn; try done.
  destruct (Z.compare_spec x y), (Z.compare_spec y x); try done; try lia; eauto.
Qed.

Lemma datetime_cmp_lex (a b : datetime) :
  cal.datetime_cmp a b = lex_cmp (datetime_fields a) (datetime_fields b).
Proof.
  unfold cal.datetime_cmp, cal.date_cmp, datetime_fields. cbn [lex_cmp].
  repeat (destruct (_ ?= _); try reflexivity).
Qed.

Lemma datetime_leb_trans (a b c : datetime) :
  cal.datetime_leb a b = true → cal.datetime_leb b c = true → cal.datetime_leb a c = true.
Proof.
  unfold cal.datetime_leb. rewrite !datetime_cmp_lex. intros Hab Hbc.
  pose proof (lex_cmp_le_trans (datetime_fields a) (datetime_fields b) (datetime_fields c)).
  destruct (lex_cmp (datetime_fields a) (datetime_fields b)),
           (lex_cmp (datetime_fields b) (datetime_fields c)),
           (lex_cmp (datetime_fields a) (datetime_fields c)); try done; naive_solver.
Qed.

Lemma datetime_leb_total (a b : datetime) :
  cal.datetime_leb a b = false → cal.datetime_leb b a = true.
Proof.
  unfold cal.datetime_leb. rewrite !datetime_cmp_lex.
  destruct (lex_cmp (datetime_fields a) (datetime_fields b)) eqn:E; try done.
  by rewrite (lex_cmp_gt_lt _ _ E).
Qed.

Lemma datetime_leb_ltb_trans (a b c : datetime) :
  cal.datetime_leb a b = true → cal.datetime_ltb b c = true → cal.datetime_ltb a c = true.
Proof.
  unfold cal.datetime_leb, cal.datetime_ltb. rewrite !datetime_cmp_lex. intros Hab Hbc.
  rewrite (lex_cmp_le_lt_trans (datetime_fields a) (datetime_fields b) (datetime_fields c));
    [done| |].
  - by destruct (lex_cmp (datetime_fields a) (datetime_fields b)).
  - by destruct (lex_cmp (datetime_fields b) (datetime_fields c)).
Qed.

Lemma lex_cmp_refl (a : list Z) : lex_cmp a a = Eq.
Proof. induction a as [|x a IH]; cbn; [done|]. by rewrite Z.compare_refl. Qed.

Lemma datetime_ltb_leb_false (a b : datetime) :
  cal.datetime_ltb a b = true → cal.datetime_leb b a = true → False.
Proof.
  unfold cal.datetime_leb, cal.datetime_ltb. rewrite !datetime_cmp_lex. intros Hab Hba.
  assert (H : lex_cmp (datetime_fields b) (datetime_fields b) = Lt).
  { apply (lex_cmp_le_lt_trans _ (datetime_fields a)).
    - by destruct (lex_cmp (datetime_fields b) (datetime_fields a)).
    - by destruct (lex_cmp (datetime_fields a) (datetime_fields b)). }
  by rewrite lex_cmp_refl in H.
Qed.

(** ** The readings query *)

Lemma insert_by_timestamp_perm (r : meter_reading) (rows : list meter_reading) :
  insert_by_timestamp r rows ≡ₚ r :: rows.
Proof.
  induction rows as [|x rows IH]; cbn [insert_by_timestamp]; [done|].
  destruct (cal.datetime_leb _ _); [done|].
  rewrite IH. apply Permutation_swap.
Qed.

Lemma insert_by_timestamp_sorted (r : meter_reading) (rows : list meter_reading) :
  StronglySorted ts_le rows → StronglySorted ts_le (insert_by_timestamp r rows).
Proof.
  induction rows as [|x rows IH]; cbn [insert_by_timestamp]; intros Hs.
  - repeat constructor.
  - apply StronglySorted_inv in Hs as [Hs Hx].
    destruct (cal.datetime_leb (mr_timestamp r) (mr_timestamp x)) eqn:E.
    + constructor; [by constructor|]. constructor; [done|].
      eapply Forall_impl; [exact Hx|]. intros y Hy. by eapply datetime_leb_trans.
    + constructor; [by apply IH|].
      rewrite insert_by_timestamp_perm. constructor; [|done].
      by apply datetime_leb_total.
Qed.

Lemma order_by_timestamp_perm (rows : list meter_reading) :
  order_by_timestamp rows ≡ₚ rows.
Proof.
  induction rows as [|r rows IH]; cbn; [done|].
  by rewrite insert_by_timestamp_perm, IH.
Qed.

Lemma order_by_timestamp_sorted (rows : list meter_reading) :
  StronglySorted ts_le (order_by_timestamp rows).
Proof.
  induction rows as [|r rows IH]; cbn; [constructor|].
  by apply insert_by_timestamp_sorted.
Qed.

Lemma filter_out_of_scope (customer_id : Z) (start end_ : datetime)
    (rows1 rows2 : list meter_reading) (r : meter_reading) :
  ¬ in_scope customer_id start end_ r →
  filter (in_scope customer_id start end_) (rows1 ++ r :: rows2)
  = filter (in_scope customer_id start end_) (rows1 ++ rows2).
Proof. intros H. by rewrite !filter_app, filter_cons_False. Qed.

(** X1: the readings a calculation works on are exactly the rows of the
    customer with [start <= timestamp < end], each as often as the table
    holds it, in ascending order of timestamp. *)
Theorem select_readings_sorted_perm (db : database) (customer_id : Z)
    (start end_ : datetime) :
  StronglySorted ts_le (select_readings db customer_id start end_)
  ∧ select_readings db customer_id start end_
    ≡ₚ filter (in_scope customer_id start end_) (meter_reading_rows db)
  ∧ ∀ r, r ∈ select_readings db customer_id start end_
         ↔ r ∈ meter_reading_rows db ∧ in_scope customer_id start end_ r.
Proof.
  assert (Hp : select_readings db customer_id start end_
               ≡ₚ filter (in_scope customer_id start end_) (meter_reading_rows db))
    by apply order_by_timestamp_perm.
  split; [|split; [done|]].
  - apply order_by_timestamp_sorted.
  - intros r. rewrite Hp, list_elem_of_filter. tauto.
Qed.

(** X2: a period whose end is not after its start selects no reading, and
    the bill is then the one of the components at zero usage; nothing
    raises. *)
Theorem empty_period_bill (rt : runtime) (db : database)
    (customer_id tariff_version_id : Z) (start end_ : datetime) (doc : tariff) :
  cal.datetime_leb end_ start = true →
  select_readings db customer_id start end_ = []
  ∧ calculate_bill rt (with_tariff db tariff_version_id doc) customer_id
      tariff_version_id start end_
    = let st := bill_components rt no_usage (billing_days start end_) start end_
                  (components doc) in
      {| total_cost := round4 st.2; breakdown := st.1; units := "AUD" |}.
Proof.
  intros Hle.
  assert (H : select_readings db customer_id start end_ = []).
  { unfold select_readings.
    replace (filter _ (meter_reading_rows db)) with (@nil meter_reading); [done|].
    symmetry. induction (meter_reading_rows db) as [|r rows IH]; [done|].
    rewrite filter_cons_False; [done|].
    intros (_ & Hs & He).
    eapply datetime_ltb_leb_false; [exact He|]. by eapply datetime_leb_trans. }
  split; [done|]. by rewrite calculate_bill_with_tariff, H.
Qed.

Lemma empty_period_bill_witness :
  cal.datetime_leb example.start example.end_ = true
  ∧ select_readings example.db 1 example.end_ example.start = [].
Proof.
  split; [reflexivity|].
  exact (proj1 (empty_period_bill py.cpython example.db 1 7 example.end_ example.start
                  (example.doc []) eq_refl)).
Defined.

(** ** Usage totals *)

(** The invariant of the readings loop, from any starting totals: each
    running sum goes on with the values of its own readings. *)
Lemma aggregate_from (doc : tariff) (readings : list meter_reading) (u : usage_totals) :
  let u' := foldl (add_reading doc) u readings in
  let sum q rs := foldl Qplus q (kwh_used <$> rs) in
  total_usage u' = sum (total_usage u) readings
  ∧ peak_usage u' = sum (peak_usage u) (bucket_readings doc Peak readings)
  ∧ shoulder_usage u' = sum (shoulder_usage u) (bucket_readings doc Shoulder readings)
  ∧ off_peak_usage u' = sum (off_peak_usage u) (bucket_readings doc OffPeak readings).
Proof.
  cbn zeta. revert u.
  induction readings as [|r readings IH]; intros u; [done|].
  cbn [foldl]. destruct (IH (add_reading doc u r)) as (I1 & I2 & I3 & I4).
  rewrite I1, I2, I3, I4. clear.
  unfold bucket_readings. cbn [List.filter fmap list_fmap foldl].
  unfold bucket_of, add_reading.
  repeat case_bool_decide; cbn; done.
Qed.

Lemma bucket_readings_perm (doc : tariff) (readings : list meter_reading) :
  readings ≡ₚ bucket_readings doc Peak readings
              ++ bucket_readings doc Shoulder readings
              ++ bucket_readings doc OffPeak readings.
Proof.
  unfold bucket_readings.
  induction readings as [|r readings IH]; [done|].
  cbn [List.filter]. destruct (bucket_of doc r); cbn [bucket_eqb].
  - cbn [app]. by f_equiv.
  - cbn [app]. rewrite <- Permutation_middle. by f_equiv.
  - rewrite (app_assoc _ _ (r :: _)), <- Permutation_middle, <- app_assoc. by f_equiv.
Qed.

Lemma bucket_of_no_bands (doc : tariff) (r : meter_reading) :
  time_bands doc = [] → bucket_of doc r = OffPeak.
Proof. intros H. unfold bucket_of, assign_band. by rewrite H. Qed.

Lemma bucket_readings_no_bands (doc : tariff) (readings : list meter_reading) :
  time_bands doc = [] →
  bucket_readings doc Peak readings = []
  ∧ bucket_readings doc Shoulder readings = []
  ∧ bucket_readings doc OffPeak readings = readings.
Proof.
  intros H. unfold bucket_readings.
  induction readings as [|r readings (I1 & I2 & I3)]; [done|].
  cbn [List.filter]. rewrite (bucket_of_no_bands doc r H), I1, I2, I3. by cbn.
Qed.

(** X3: every reading is counted in the total and in exactly one of the
    three buckets, in the order of the readings: the total is the running
    sum of all readings, each of peak, shoulder and off-peak usage is the
    running sum of the readings of its own bucket, and the three buckets
    together hold every reading once; with no time bands in the document
    peak and shoulder usage are 0 and off-peak usage is the total.  (Sums
    are compared term by term, in the order the code adds them; nothing is
    said about peak + off-peak + shoulder.) *)
Theorem usage_buckets_partition (doc : tariff) (readings : list meter_reading) :
  let u := aggregate_usage doc readings in
  total_usage u = running_sum readings
  ∧ peak_usage u = running_sum (bucket_readings doc Peak readings)
  ∧ shoulder_usage u = running_sum (bucket_readings doc Shoulder readings)
  ∧ off_peak_usage u = running_sum (bucket_readings doc OffPeak readings)
  ∧ readings ≡ₚ bucket_readings doc Peak readings
                ++ bucket_readings doc Shoulder readings
                ++ bucket_readings doc OffPeak readings
  ∧ (time_bands doc = [] →
     peak_usage u = 0%Q ∧ shoulder_usage u = 0%Q ∧ off_peak_usage u = total_usage u).
Proof.
  cbn zeta. unfold aggregate_usage, running_sum.
  destruct (aggregate_from doc readings no_usage) as (H1 & H2 & H3 & H4).
  repeat (split; [done|]). split; [apply bucket_readings_perm|].
  intros Hb. destruct (bucket_readings_no_bands doc readings Hb) as (E1 & E2 & E3).
  rewrite H1, H2, H3, H4, E1, E2, E3. done.
Qed.

Lemma usage_buckets_partition_witness :
  let readings := select_readings twin_db 2 example.start example.end_ in
  time_bands (example.doc []) = []
  ∧ length readings = 2%nat
  ∧ off_peak_usage (aggregate_usage (example.doc []) readings)
    = total_usage (aggregate_usage (example.doc []) readings).
Proof.
  intros readings. split; [reflexivity|]. split; [reflexivity|].
  exact (proj2 (proj2 (proj2 (proj2 (proj2 (proj2 (proj2
           (usage_buckets_partition (example.doc []) readings))))) eq_refl))).
Defined.

(** ** What the bill and the checksum depend on *)

Lemma select_readings_out_of_scope (db : database) (customer_id : Z)
    (start end_ : datetime) (rows1 rows2 : list meter_reading) (r : meter_reading) :
  ¬ in_scope customer_id start end_ r →
  select_readings (with_readings db (rows1 ++ r :: rows2)) customer_id start end_
  = select_readings (with_readings db (rows1 ++ rows2)) customer_id start end_.
Proof.
  intros H. unfold select_readings, with_readings. cbn [meter_reading_rows].
  by rewrite (filter_out_of_scope _ _ _ _ _ _ H).
Qed.

(** X4: a row of the readings table that belongs to another customer or
    lies outside [start, end) changes neither the bill nor the checksum,
    wherever it stands in the table. *)
Theorem out_of_scope_reading_ignored (rt : runtime)
    (sha256_hexdigest : string → string) (repr_json : tariff → string)
    (str_decimal : Q → string) (str_int : Z → string)
    (db : database) (customer_id tariff_version_id : Z) (start end_ : datetime)
    (rows1 rows2 : list meter_reading) (r : meter_reading) :
  ¬ in_scope customer_id start end_ r →
  calculate_bill rt (with_readings db (rows1 ++ r :: rows2)) customer_id
    tariff_version_id start end_
  = calculate_bill rt (with_readings db (rows1 ++ rows2)) customer_id
      tariff_version_id start end_
  ∧ compute_checksum sha256_hexdigest repr_json str_decimal str_int
      (with_readings db (rows1 ++ r :: rows2)) customer_id tariff_version_id start end_
    = compute_checksum sha256_hexdigest repr_json str_decimal str_int
        (with_readings db (rows1 ++ rows2)) customer_id tariff_version_id start end_.
Proof.
  intros H. unfold calculate_bill, compute_checksum.
  by rewrite (select_readings_out_of_scope db _ _ _ rows1 rows2 r H).
Qed.

Lemma out_of_scope_reading_ignored_witness :
  let other := {| mr_customer_id := 2; mr_timestamp := example.at_ 2024 1 10 10 0;
                  kwh_used := 50 |} in
  ¬ in_scope 1 example.start example.end_ other
  ∧ calculate_bill py.cpython
      (with_readings (with_tariff example.db 7 (example.doc [example.energy]))
         ([] ++ other :: meter_reading_rows example.db))
      1 7 example.start example.end_
    = calculate_bill py.cpython
        (with_readings (with_tariff example.db 7 (example.doc [example.energy]))
           ([] ++ meter_reading_rows example.db))
        1 7 example.start example.end_.
Proof.
  intros other.
  assert (H : ¬ in_scope 1 example.start example.end_ other)
    by (intros [H _]; discriminate H).
  split; [exact H|].
  exact (proj1 (out_of_scope_reading_ignored py.cpython (λ s, s) (λ _, "") (λ _, "")
                  (λ _, "") (with_tariff example.db 7 (example.doc [example.energy]))
                  1 7 example.start example.end_ [] (meter_reading_rows example.db)
                  other H)).
Defined.

(** X5: the customer id is not part of the checksum: it enters only
    through the readings it selects, so two customers whose selected
    readings agree in timestamps and values get the same checksum for the
    same tariff version and period. *)
Theorem checksum_ignores_customer_id (sha256_hexdigest : string → string)
    (repr_json : tariff → string) (str_decimal : Q → string) (str_int : Z → string)
    (db : database) (customer1 customer2 tariff_version_id : Z) (start end_ : datetime) :
  (λ r, (mr_timestamp r, kwh_used r)) <$> select_readings db customer1 start end_
  = (λ r, (mr_timestamp r, kwh_used r)) <$> select_readings db customer2 start end_ →
  compute_checksum sha256_hexdigest repr_json str_decimal str_int db customer1
    tariff_version_id start end_
  = compute_checksum sha256_hexdigest repr_json str_decimal str_int db customer2
      tariff_version_id start end_.
Proof.
  intros H. unfold compute_checksum. cbn zeta.
  set (h0 := match _ with Some c => _ | None => _ end).
  set (f := λ (h : string) (p : datetime * Q), h +:+ cal.str_datetime p.1 +:+ str_decimal p.2).
  assert (Hf : ∀ rows,
    foldl (λ h r, h +:+ cal.str_datetime (mr_timestamp r) +:+ str_decimal (kwh_used r))
      h0 rows
    = foldl f h0 ((λ r, (mr_timestamp r, kwh_used r)) <$> rows))
    by (intros rows; by rewrite foldl_fmap).
  by rewrite !Hf, H.
Qed.

Lemma checksum_ignores_customer_id_witness :
  let rows c := (λ r, (mr_timestamp r, kwh_used r))
                  <$> select_readings twin_db c example.start example.end_ in
  let sum c := compute_checksum (λ s, s) (λ _, "{}") (λ q, text.pad4 (Qfloor q))
                 text.pad4 twin_db c 7 example.start example.end_ in
  rows 2 = rows 3
  ∧ rows 2 = [ (example.at_ 2024 1 10 10 0, 40%Q); (example.at_ 2024 1 12 8 30, 15%Q) ]
  ∧ sum 2 = sum 3.
Proof.
  intros rows sum. split; [reflexivity|]. split; [reflexivity|].
  exact (checksum_ignores_customer_id (λ s, s) (λ _, "{}") (λ q, text.pad4 (Qfloor q))
           text.pad4 twin_db 2 3 7 example.start example.end_ eq_refl).
Defined.

(** ** Which components enter the bill *)

Section ComponentFacts.

Context (rt : runtime) (db : database) (customer_id tariff_version_id : Z)
        (start end_ : datetime) (bands : list time_band).

Let doc (cs : list component) : tariff := {| components := cs; time_bands := bands |}.
Let u : usage_totals :=
  aggregate_usage (doc []) (select_readings db customer_id start end_).
Let days : Z := billing_days start end_.
Let bill (cs : list component) : calc_result :=
  calculate_bill rt (with_tariff db tariff_version_id (doc cs)) customer_id
    tariff_version_id start end_.

Lemma bill_unfold (cs : list component) :
  bill cs
  = let st := foldl (bill_component rt u days start end_) (∅, 0%Q) cs in
    {| total_cost := round4 st.2; breakdown := st.1; units := "AUD" |}.
Proof.
  unfold bill. rewrite calculate_bill_with_tariff. cbn zeta.
  by rewrite (aggregate_usage_time_bands _ (doc [])).
Qed.

Lemma bill_replace (before after : list component) (comp comp' : component) :
  (∀ st, bill_component rt u days start end_ st comp
         = bill_component rt u days start end_ st comp') →
  bill (before ++ comp :: after) = bill (before ++ comp' :: after).
Proof. intros H. rewrite !bill_unfold. cbn zeta. by rewrite !foldl_app; cbn; rewrite H. Qed.

Lemma bill_skip (before after : list component) (comp : component) :
  (∀ st, bill_component rt u days start end_ st comp = st) →
  bill (before ++ comp :: after) = bill (before ++ after).
Proof. intros H. rewrite !bill_unfold. cbn zeta. by rewrite !foldl_app; cbn; rewrite H. Qed.

(** X6: a component without an id, with the empty id, without a
    calculation, or whose season (both dates readable) ends before the
    period starts or starts after it ends, is passed over: the bill is the
    bill of the document without it. *)
Theorem component_passed_over (before after : list component) (comp : component) :
  c_id comp = None ∨ c_id comp = Some "" ∨ c_calculation comp = None
  ∨ (∃ season from_date to_date,
       c_season comp = Some season
       ∧ w_from season = Some from_date ∧ w_to season = Some to_date
       ∧ (cal.date_ltb (dt_date end_) from_date = true
          ∨ cal.date_ltb to_date (dt_date start) = true)) →
  calculate_bill rt (with_tariff db tariff_version_id
                       {| components := before ++ comp :: after; time_bands := bands |})
    customer_id tariff_version_id start end_
  = calculate_bill rt (with_tariff db tariff_version_id
                         {| components := before ++ after; time_bands := bands |})
      customer_id tariff_version_id start end_.
Proof.
  intros H. apply bill_skip. intros st. unfold bill_component.
  destruct H as [->|[->|[H|(season & f & t & Hs & Hf & Ht & H)]]]; [done..| |].
  - rewrite H. destruct (c_id comp); [|done].
    destruct (bool_decide _); [done|]. by destruct (out_of_season _ _ _).
  - assert (Ho : out_of_season start end_ comp = true).
    { unfold out_of_season. rewrite Hs, Hf, Ht. by destruct H as [->| ->]; [|rewrite orb_true_r]. }
    rewrite Ho. destruct (c_id comp); [|done]. by destruct (bool_decide _).
Qed.

(** X7: a season of which a date is missing or unreadable does not exclude
    the component: it is billed exactly as if it had no season. *)
Theorem unreadable_season_ignored (before after : list component) (comp : component)
    (season : date_window) :
  c_season comp = Some season →
  w_from season = None ∨ w_to season = None →
  calculate_bill rt (with_tariff db tariff_version_id
                       {| components := before ++ comp :: after; time_bands := bands |})
    customer_id tariff_version_id start end_
  = calculate_bill rt (with_tariff db tariff_version_id
                         {| components := before ++ without_season comp :: after;
                            time_bands := bands |})
      customer_id tariff_version_id start end_.
Proof.
  intros Hs Hw. apply bill_replace. intros st. unfold bill_component.
  assert (Ho : out_of_season start end_ comp = false).
  { unfold out_of_season. rewrite Hs. destruct Hw as [-> | ->]; [done|].
    by destruct (w_from season). }
  by rewrite Ho.
Qed.

(** An id of the breakdown was there before the loop or belongs to a
    component that was billed. *)
Lemma bill_components_billed (comps : list component) (st : gmap string entry * Q)
    (id : string) :
  is_Some ((foldl (bill_component rt u days start end_) st comps).1 !! id) →
  is_Some (st.1 !! id)
  ∨ ∃ comp p x,
      comp ∈ comps ∧ c_id comp = Some id ∧ id ≠ ""
      ∧ out_of_season start end_ comp = false
      ∧ c_calculation comp = Some p
      ∧ _safe_eval rt p (vars_for_expr u days start end_ comp) = Ok x.
Proof.
  revert st. induction comps as [|comp comps IH]; intros st; cbn [foldl]; [by left|].
  intros [H|(c & p & x & Hin & Hc)]%IH;
    [|right; exists c, p, x; split; [by right|done]].
  revert H. unfold bill_component.
  destruct (c_id comp) as [comp_id|] eqn:Hid; [|by left].
  case_bool_decide as Hne; [by left|].
  destruct (out_of_season start end_ comp) eqn:Ho; [by left|].
  destruct (c_calculation comp) as [expr|] eqn:Hc; [|by left].
  destruct (_safe_eval rt expr _) as [x|] eqn:Hx; [|by left].
  destruct (units_and_label u days _) as [uu ul]. cbn [fst].
  destruct (decide (comp_id = id)) as [->|Hne'].
  - intros _. right. exists comp, expr, x. split; [by left|done].
  - rewrite lookup_insert_ne by done. by left.
Qed.

(** X8: the breakdown holds only billed components: each of its keys is
    the non-empty id of a component of the document that is in season and
    whose calculation evaluated to a number; and the currency is AUD. *)
Theorem breakdown_keys_are_billed (comps : list component) (id : string) :
  let r := calculate_bill rt (with_tariff db tariff_version_id
                                {| components := comps; time_bands := bands |})
             customer_id tariff_version_id start end_ in
  units r = "AUD"
  ∧ (is_Some (breakdown r !! id) →
     ∃ comp p x,
       comp ∈ comps ∧ c_id comp = Some id ∧ id ≠ ""
       ∧ out_of_season start end_ comp = false
       ∧ c_calculation comp = Some p
       ∧ _safe_eval rt p (vars_for_expr u days start end_ comp) = Ok x).
Proof.
  cbn zeta. fold (doc comps). fold (bill comps). rewrite bill_unfold. cbn zeta.
  split; [done|]. cbn [breakdown].
  intros [H|H]%bill_components_billed; [|done].
  cbn [fst] in H. rewrite lookup_empty in H. by apply is_Some_None in H.
Qed.

End ComponentFacts.

Lemma component_passed_over_witness :
  let nameless :=
    {| c_id := None; c_season := None; c_applies_to := []; c_rate_schedule := None;
       c_unit := None; c_loss_factor := None;
       c_calculation := example.formula (ast.Constant (VInt 5)) |} in
  (c_id nameless = None ∨ c_id nameless = Some "" ∨ c_calculation nameless = None
   ∨ (∃ season from_date to_date,
        c_season nameless = Some season
        ∧ w_from season = Some from_date ∧ w_to season = Some to_date
        ∧ (cal.date_ltb (dt_date example.end_) from_date = true
           ∨ cal.date_ltb to_date (dt_date example.start) = true)))
  ∧ calculate_bill py.cpython
      (with_tariff example.db 7
         {| components := [] ++ nameless :: [example.energy]; time_bands := [] |})
      1 7 example.start example.end_
    = calculate_bill py.cpython
        (with_tariff example.db 7
           {| components := [] ++ [example.energy]; time_bands := [] |})
        1 7 example.start example.end_.
Proof.
  intros nameless.
  assert (H : c_id nameless = None ∨ c_id nameless = Some ""
              ∨ c_calculation nameless = None
              ∨ (∃ season from_date to_date,
                   c_season nameless = Some season
                   ∧ w_from season = Some from_date ∧ w_to season = Some to_date
                   ∧ (cal.date_ltb (dt_date example.end_) from_date = true
                      ∨ cal.date_ltb to_date (dt_date example.start) = true)))
    by (left; reflexivity).
  split; [exact H|].
  exact (component_passed_over py.cpython example.db 1 7 example.start example.end_ []
           [] [example.energy] nameless H).
Defined.

Lemma unreadable_season_ignored_witness :
  let season := {| w_from := None; w_to := Some {| year := 2023; month := 3; day := 31 |} |} in
  let seasonal :=
    {| c_id := Some "summer"; c_season := Some season; c_applies_to := ["fixed"];
       c_rate_schedule := None; c_unit := None; c_loss_factor := None;
       c_calculation := example.formula (ast.Constant (VInt 5)) |} in
  (c_season seasonal = Some season ∧ (w_from season = None ∨ w_to season = None))
  ∧ calculate_bill py.cpython
      (with_tariff example.db 7 {| components := [] ++ seasonal :: []; time_bands := [] |})
      1 7 example.start example.end_
    = calculate_bill py.cpython
        (with_tariff example.db 7
           {| components := [] ++ without_season seasonal :: []; time_bands := [] |})
        1 7 example.start example.end_.
Proof.
  intros season seasonal.
  assert (Hw : w_from season = None ∨ w_to season = None) by (left; reflexivity).
  split; [split; [reflexivity|exact Hw]|].
  exact (unreadable_season_ignored py.cpython example.db 1 7 example.start example.end_
           [] [] [] seasonal season eq_refl Hw).
Defined.

Lemma breakdown_keys_are_billed_witness :
  let r := calculate_bill py.cpython
             (with_tariff example.db 7
                {| components := [example.broken; example.energy]; time_bands := [] |})
             1 7 example.start example.end_ in
  is_Some (breakdown r !! "energy")
  ∧ ∃ comp p x,
      comp ∈ [example.broken; example.energy] ∧ c_id comp = Some "energy" ∧ "energy" ≠ ""
      ∧ out_of_season example.start example.end_ comp = false
      ∧ c_calculation comp = Some p
      ∧ _safe_eval py.cpython p
          (vars_for_expr
             (aggregate_usage {| components := []; time_bands := [] |}
                (select_readings example.db 1 example.start example.end_))
             (billing_days example.start example.end_)
             example.start example.end_ comp) = Ok x.
Proof.
  intros r.
  assert (H : is_Some (breakdown r !! "energy")) by (vm_compute; eexists; reflexivity).
  split; [exact H|].
  exact (proj2 (breakdown_keys_are_billed py.cpython example.db 1 7 example.start
                  example.end_ [] [example.broken; example.energy] "energy") H).
Defined.

(** ** More on tier selection and rate conversion *)

(** X9: from a schedule with tiers, the selected rate is always the value
    of one of its tiers: no rate is made up. *)
Theorem selected_rate_is_a_tier_value (schedule : list tier) (usage : Q) :
  schedule ≠ [] →
  ∃ t, t ∈ schedule ∧ _select_rate_value schedule usage = tier_value t.
Proof.
  intros Hne. unfold _select_rate_value.
  destruct schedule as [|t0 [|t1 rest]]; [done| |].
  - exists t0. split; [by left|done].
  - rewrite applicable_find.
    destruct (List.find _ _) as [t|] eqn:E; cbn [fmap option_fmap option_map].
    + apply find_some in E as [Hin _]. exists t. split; [|done].
      by apply list_elem_of_In.
    + destruct (last (t0 :: t1 :: rest)) as [t|] eqn:El;
        [|by apply last_None in El].
      exists t. split; [|done]. by eapply last_Some_elem_of.
Qed.

Lemma selected_rate_is_a_tier_value_witness :
  let schedule := [ {| t_from := None; t_to := Some 100%Q; t_value := Some 1%Q |};
                    {| t_from := Some 100%Q; t_to := None; t_value := Some 2%Q |} ] in
  schedule ≠ [] ∧ ∃ t, t ∈ schedule ∧ _select_rate_value schedule 150 = tier_value t.
Proof.
  intros schedule.
  assert (H : schedule ≠ []) by discriminate.
  split; [exact H|]. exact (selected_rate_is_a_tier_value schedule 150 H).
Defined.

Lemma applicable_none (schedule : list tier) (usage : Q) :
  Forall (λ t, tier_applies t usage = false) schedule → applicable schedule usage = None.
Proof.
  induction 1 as [|t rest Ht _ IH]; cbn [applicable]; [done|]. by rewrite Ht.
Qed.

(** X10: a usage that lies above the upper bound of every tier, or below
    the lower bound of every tier, is billed at the last tier's value (so a
    usage below all tiers also gets the top tier, not the first). *)
Theorem usage_outside_all_tiers (schedule : list tier) (usage : Q) :
  Forall (λ t, ∃ to, t_to t = Some to ∧ (to < usage)%Q) schedule
  ∨ Forall (λ t, ∃ frm, t_from t = Some frm ∧ (usage < frm)%Q) schedule →
  _select_rate_value schedule usage = from_option tier_value 0%Q (last schedule).
Proof.
  intros H.
  assert (Hn : applicable schedule usage = None).
  { apply applicable_none. destruct H as [H|H]; (eapply Forall_impl; [exact H|]);
      intros t (b & Hb & Hlt); unfold tier_applies, Qltb; rewrite Hb.
    - assert (Qle_bool usage b = false)
        by (apply not_true_is_false; intros ?%Qle_bool_iff; by eapply Qlt_not_le).
      assert (Qle_bool b usage = true) by (by apply Qle_bool_iff, Qlt_le_weak).
      destruct (t_from t); [|done]. by rewrite H1, andb_false_r.
    - assert (Qle_bool b usage = false)
        by (apply not_true_is_false; intros ?%Qle_bool_iff; by eapply Qlt_not_le).
      destruct (t_to t); by rewrite H0. }
  unfold _select_rate_value. rewrite Hn.
  by destruct schedule as [|t0 [|t1 rest]].
Qed.

Lemma usage_outside_all_tiers_witness :
  let schedule := [ {| t_from := Some 10%Q; t_to := Some 100%Q; t_value := Some 1%Q |};
                    {| t_from := Some 100%Q; t_to := Some 200%Q; t_value := Some 2%Q |} ] in
  (Forall (λ t, ∃ to, t_to t = Some to ∧ (to < 5)%Q) schedule
   ∨ Forall (λ t, ∃ frm, t_from t = Some frm ∧ (5 < frm)%Q) schedule)
  ∧ _select_rate_value schedule 5 = 2%Q.
Proof.
  intros schedule.
  assert (H : Forall (λ t, ∃ to, t_to t = Some to ∧ (to < 5)%Q) schedule
              ∨ Forall (λ t, ∃ frm, t_from t = Some frm ∧ (5 < frm)%Q) schedule).
  { right. repeat constructor; eexists; (split; [reflexivity|reflexivity]). }
  split; [exact H|]. exact (usage_outside_all_tiers schedule 5 H).
Defined.

Lemma month_days_pos (y m : Z) : 1 ≤ m ≤ 12 → 28 ≤ cal.month_days y m ≤ 31.
Proof.
  intros H.
  assert (m = 1 ∨ m = 2 ∨ m = 3 ∨ m = 4 ∨ m = 5 ∨ m = 6 ∨ m = 7 ∨ m = 8 ∨ m = 9
          ∨ m = 10 ∨ m = 11 ∨ m = 12) as Hm by lia.
  unfold cal.month_days.
  repeat (destruct Hm as [->|Hm]; [try destruct (cal.isleap y); lia|]).
  subst. lia.
Qed.

(** X11: rate conversion keeps the order of published values: for a
    period of no negative length, a greater published value never gives a
    smaller converted rate, whatever the unit and the start date. *)
Theorem parse_rate_monotone (unit : option string) (value1 value2 : Q) (days : Z)
    (billing_start : date) :
  0 ≤ days → 1 ≤ month billing_start ≤ 12 → (value1 <= value2)%Q →
  (_parse_rate unit value1 days billing_start
   <= _parse_rate unit value2 days billing_start)%Q.
Proof.
  intros Hd Hm Hv.
  pose proof (month_days_pos (year billing_start) _ Hm) as Hmd.
  assert (H100 : (value1 / 100 <= value2 / 100)%Q)
    by (unfold Qdiv; by apply Qmult_le_compat_r).
  assert (Hday : (0 <= inject_Z days)%Q) by (change 0%Q with (inject_Z 0); by rewrite <- Zle_Qle).
  assert (Hmonth : (0 <= inject_Z days
                         / inject_Z (cal.month_days (year billing_start)
                                       (month billing_start)))%Q).
  { unfold Qdiv. apply Qmult_le_0_compat; [done|]. apply Qinv_le_0_compat.
    change 0%Q with (inject_Z 0). rewrite <- Zle_Qle. lia. }
  assert (Hyear : (0 <= inject_Z days / 365)%Q).
  { unfold Qdiv. apply Qmult_le_0_compat; [done|]. by apply Qinv_le_0_compat. }
  unfold _parse_rate. destruct unit as [unit|]; [|done].
  destruct (text.startswith _ _);
    repeat (match goal with |- context [if ?b then _ else _] => destruct b end);
    try done; by apply Qmult_le_compat_r.
Qed.

Lemma parse_rate_monotone_witness :
  let feb := {| year := 2024; month := 2; day := 1 |} in
  (0 ≤ 15 ∧ 1 ≤ month feb ≤ 12 ∧ (10 <= 20)%Q)
  ∧ (_parse_rate (Some "c/kVA/Mth") 10 15 feb
     <= _parse_rate (Some "c/kVA/Mth") 20 15 feb)%Q.
Proof.
  intros feb.
  assert (Hd : 0 ≤ 15) by lia.
  assert (Hm : 1 ≤ month feb ≤ 12) by (cbn; lia).
  assert (Hv : (10 <= 20)%Q) by (by vm_compute).
  split; [done|].
  exact (parse_rate_monotone (Some "c/kVA/Mth") 10 20 15 feb Hd Hm Hv).
Defined.

(** X12: no proration over a whole period: a monthly rate billed for as
    many days as the start month has, and a yearly rate billed for 365
    days, come out as the published rate (in dollars). *)
Theorem whole_period_rate (unit : string) (value : Q) (billing_start : date) :
  let u := text.lower (text.strip unit) in
  let cents := text.startswith u "c/" in
  let tail := if cents then text.drop 2 u else u in
  let v := if cents then (value / 100)%Q else value in
  let month_days := cal.month_days (year billing_start) (month billing_start) in
  1 ≤ month billing_start ≤ 12 →
  (text.endswith tail "/mth" = true ∨ text.endswith tail "/month" = true →
   (_parse_rate (Some unit) value month_days billing_start == v)%Q)
  ∧ (text.endswith tail "/year" = true →
     (_parse_rate (Some unit) value 365 billing_start == v)%Q).
Proof.
  cbn zeta. intros Hm.
  pose proof (month_days_pos (year billing_start) _ Hm) as Hd.
  assert (Hz : ¬ (inject_Z (cal.month_days (year billing_start) (month billing_start))
                  == 0)%Q) by (unfold Qeq; cbn; lia).
  split; intros H; unfold _parse_rate;
    destruct (text.startswith (text.lower (text.strip unit)) "c/");
    match goal with
    | |- context [text.endswith ?t "/day"] =>
        destruct (text.endswith t "/day") eqn:Hday;
        destruct (text.endswith t "/kwh") eqn:Hkwh;
        destruct (text.endswith t "/mth") eqn:Hmth;
        destruct (text.endswith t "/month") eqn:Hmonth;
        destruct (text.endswith t "/meter/year") eqn:Hmy;
        destruct (text.endswith t "/year") eqn:Hyear
    end;
    cbn [orb]; try suffix_clash; try discriminate H; try (by destruct H);
    try (by field).
Qed.

Lemma whole_period_rate_witness :
  let feb := {| year := 2024; month := 2; day := 1 |} in
  (1 ≤ month feb ≤ 12
   ∧ (text.endswith (text.lower (text.strip "$/kVA/Mth")) "/mth" = true
      ∨ text.endswith (text.lower (text.strip "$/kVA/Mth")) "/month" = true))
  ∧ (_parse_rate (Some "$/kVA/Mth") 10 29 feb == 10)%Q.
Proof.
  intros feb.
  assert (Hm : 1 ≤ month feb ≤ 12) by (cbn; lia).
  assert (H : text.endswith (text.lower (text.strip "$/kVA/Mth")) "/mth" = true
              ∨ text.endswith (text.lower (text.strip "$/kVA/Mth")) "/month" = true)
    by (left; vm_compute; reflexivity).
  split; [by split|].
  exact (proj1 (whole_period_rate "$/kVA/Mth" 10 feb Hm) H).
Defined.

(** ** More on band assignment *)

(** X13: the band id given to a timestamp is "off_peak" or the id of one of
    the document's bands: the classifier makes up no label. *)
Theorem assigned_band_is_declared (ts : datetime) (canonical : tariff) :
  assign_band ts canonical = "off_peak"
  ∨ ∃ band, band ∈ time_bands canonical ∧ b_id band = Some (assign_band ts canonical).
Proof.
  unfold assign_band. cbn zeta.
  induction (time_bands canonical) as [|band rest IH]; [by left|].
  destruct (assign_band_loop_cons ts band rest) as [[_ ->]|[_ ->]].
  - destruct (b_id band) as [id|] eqn:E; [|by left].
    right. exists band. split; [by left|done].
  - destruct IH as [IH|(b & Hin & Hb)]; [by left|].
    right. exists b. split; [by right|done].
Qed.

Lemma string_compare_le_lt (a b c : string) :
  String.compare a b ≠ Gt → String.compare b c = Lt → String.compare a c = Lt.
Proof.
  revert b c. induction a as [|x a IH]; intros [|y b] [|z c]; cbn; try done.
  unfold Ascii.compare.
  destruct (N.compare_spec (N_of_ascii x) (N_of_ascii y)),
           (N.compare_spec (N_of_ascii y) (N_of_ascii z)),
           (N.compare_spec (N_of_ascii x) (N_of_ascii z));
    try done; try lia; eauto.
Qed.

Lemma in_times_reversed (time_str : string) (times : list span) :
  Forall reversed_span times → in_times time_str times = false.
Proof.
  induction 1 as [|s rest Hs _ IH]; cbn [in_times]; [done|].
  destruct (sp_from s) as [f|] eqn:Ef, (sp_to s) as [t|] eqn:Et; try done.
  destruct (text.leb f time_str) eqn:E1, (text.ltb time_str t) eqn:E2; try done.
  specialize (Hs f t Ef Et). exfalso.
  unfold text.leb, text.ltb, String.leb, String.ltb in *.
  pose proof (string_compare_le_lt f time_str t) as H.
  destruct (String.compare f time_str); try done;
    destruct (String.compare time_str t); try done;
    rewrite H in Hs; done.
Qed.

(** X14: a span that does not end after it starts (an overnight span such
    as 22:00 to 06:00) holds no time of day; a band all of whose spans are
    such is never assigned: the band of every timestamp is the one the
    document without that band gives. *)
Theorem overnight_band_never_assigned (ts : datetime) (comps : list component)
    (before after : list time_band) (band : time_band) :
  Forall reversed_span (b_times band) →
  (∀ time_str, in_times time_str (b_times band) = false)
  ∧ assign_band ts {| components := comps; time_bands := before ++ band :: after |}
    = assign_band ts {| components := comps; time_bands := before ++ after |}.
Proof.
  intros H. split; [intros t; by apply in_times_reversed|].
  unfold assign_band. cbn [time_bands]. cbn zeta.
  induction before as [|b before IH]; cbn [app assign_band_loop].
  - rewrite (in_times_reversed _ _ H).
    repeat (match goal with
            | |- context [if ?b then _ else _] => destruct b
            end); reflexivity.
  - by rewrite IH.
Qed.

Lemma overnight_band_never_assigned_witness :
  let night := {| b_id := Some "peak"; b_days := ["all"];
                  b_times := [ {| sp_from := Some "22:00"; sp_to := Some "06:00" |} ];
                  b_date_ranges := None |} in
  Forall reversed_span (b_times night)
  ∧ assign_band (example.at_ 2024 1 10 23 0)
      {| components := []; time_bands := [] ++ night :: [] |} = "off_peak".
Proof.
  intros night.
  assert (H : Forall reversed_span (b_times night)).
  { constructor; [|constructor]. intros f t [= <-] [= <-]. reflexivity. }
  split; [exact H|].
  exact (proj2 (overnight_band_never_assigned (example.at_ 2024 1 10 23 0) [] [] []
                  night H)).
Defined.

(** ** Boolean operators *)

(** X15: [and] and [or] are eager and give a bool: every operand is
    evaluated, so an operand that raises makes the operation raise whatever
    the operands before it are; when all operands have values the result is
    [all] (for [and]) or [any] (for [or]) of them, a True or False and
    never one of the operands. *)
Theorem boolop_eager (rt : runtime) (variables : gmap string value)
    (op : ast.boolop) (vs : list ast.node) :
  (∀ v, v ∈ vs → raises (_eval rt variables v) →
        raises (_eval rt variables (ast.BoolOp op vs)))
  ∧ (∀ xs, mapM (_eval rt variables) vs = Ok xs →
           _eval rt variables (ast.BoolOp op vs)
           = b ← match op with
                 | ast.And => py_all rt xs
                 | ast.Or => py_any rt xs
                 end; Ok (VBool b))
  ∧ (∀ x, _eval rt variables (ast.BoolOp op vs) = Ok x → ∃ b, x = VBool b).
Proof.
  split; [|split].
  - intros v Hv Hr. by apply (eval_strict_child _ _ _ v).
  - intros xs Hxs. cbn [_eval]. rewrite Hxs. by destruct op.
  - cbn [_eval]. intros x. destruct (mapM _ vs) as [xs|]; [|done]. cbn.
    destruct op; [destruct (py_all rt xs) as [b|]|destruct (py_any rt xs) as [b|]];
      cbn; try done; intros [= <-]; by exists b.
Qed.

Lemma boolop_eager_witness :
  let c (n : Z) := ast.Constant (VInt n) in
  let bad := ast.BinOp (c 1) ast.Div (c 0) in
  (bad ∈ [c 0; bad] ∧ raises (_eval py.cpython ∅ bad))
  ∧ raises (_eval py.cpython ∅ (ast.BoolOp ast.And [c 0; bad])).
Proof.
  intros c bad.
  assert (Hin : bad ∈ [c 0; bad]) by (right; left).
  assert (Hr : raises (_eval py.cpython ∅ bad)) by (by eexists).
  split; [by split|].
  exact (proj1 (boolop_eager py.cpython ∅ ast.And [c 0; bad]) bad Hin Hr).
Defined.

(** In Python [0 and 1/0] is 0 and [2 or 3] is 2; here the first raises
    and the second is True. *)
Example boolop_differs_from_python :
  let c (n : Z) := ast.Constant (VInt n) in
  _safe_eval py.cpython
    (Some (ast.Expression (ast.BoolOp ast.And [c 0; ast.BinOp (c 1) ast.Div (c 0)]))) ∅
  = Raise ZeroDivisionError
  ∧ _safe_eval py.cpython (Some (ast.Expression (ast.BoolOp ast.Or [c 2; c 3]))) ∅
    = Ok 1%Q.
Proof. by vm_compute. Qed.

(** ** Units shown in the breakdown *)

(** X16: the two category chains of [calculate_bill] agree: the units shown
    for a component are the usage that selected its tier, rounded to 4
    places, except for a fixed, meter, metering or ancillary charge without
    any usage or demand tag, which shows the day count (its tier usage is
    zero). *)
Theorem units_are_tier_usage (u : usage_totals) (days : Z) (applies : list string) :
  let shown := units_and_label u days applies in
  (shown.1 = VFloat (round4 (usage_for_tier u applies))
   ∧ shown.2 ∈ ["kWh"; "kVA"; "unit"])
  ∨ (shown = (VInt days, "days")
     ∧ any_in ["fixed"; "meter"; "metering"; "ancillary"] applies = true
     ∧ usage_for_tier u applies = 0%Q).
Proof.
  cbn zeta. unfold units_and_label, usage_for_tier.
  repeat (match goal with
          | |- context [if ?b then _ else _] => destruct b eqn:?
          end);
    cbn [fst snd];
    first [ left; split; [reflexivity|set_solver]
          | right; by repeat split ].
Qed.

(** ** The stored runs *)

(** X17: the run looked up for a customer and tariff version is one of
    their rows with the greatest id; none is found exactly when they have
    no row. *)
Theorem latest_run_is_greatest (runs : list calc_run) (customer_id tariff_version_id : Z) :
  match latest_run runs customer_id tariff_version_id with
  | Some b =>
      b ∈ runs ∧ run_of customer_id tariff_version_id b
      ∧ ∀ r, r ∈ runs → run_of customer_id tariff_version_id r → cr_id r ≤ cr_id b
  | None => ∀ r, r ∈ runs → ¬ run_of customer_id tariff_version_id r
  end.
Proof.
  induction runs as [|x runs IH] using rev_ind.
  - cbn. intros r Hr. by apply elem_of_nil in Hr.
  - rewrite latest_run_snoc. unfold run_of in *. case_bool_decide as Hx.
    + destruct (latest_run runs customer_id tariff_version_id) as [b|].
      * destruct IH as (Hb & Hrun & Hmax).
        destruct (Z.ltb_spec (cr_id b) (cr_id x)).
        -- split; [apply elem_of_app; right; by left|]. split; [done|].
           intros r [Hr | ->%list_elem_of_singleton]%elem_of_app Hrr; [|lia].
           specialize (Hmax r Hr Hrr). lia.
        -- split; [apply elem_of_app; by left|]. split; [done|].
           intros r [Hr | ->%list_elem_of_singleton]%elem_of_app Hrr; [|lia].
           by apply Hmax.
      * split; [apply elem_of_app; right; by left|]. split; [done|].
        intros r [Hr | ->%list_elem_of_singleton]%elem_of_app Hrr; [|lia].
        by destruct (IH r Hr).
    + destruct (latest_run runs customer_id tariff_version_id) as [b|].
      * destruct IH as (Hb & Hrun & Hmax).
        split; [apply elem_of_app; by left|]. split; [done|].
        intros r [Hr | ->%list_elem_of_singleton]%elem_of_app Hrr; [by apply Hmax|done].
      * intros r [Hr | ->%list_elem_of_singleton]%elem_of_app; [by apply IH|done].
Qed.

Lemma latest_run_run_of (runs : list calc_run) (customer_id tariff_version_id : Z)
    (b : calc_run) :
  latest_run runs customer_id tariff_version_id = Some b →
  b ∈ runs ∧ run_of customer_id tariff_version_id b.
Proof.
  revert b. induction runs as [|x runs IH] using rev_ind; intros b; [done|].
  rewrite latest_run_snoc, elem_of_app, list_elem_of_singleton.
  unfold run_of in *. case_bool_decide as Hx.
  - destruct (latest_run runs customer_id tariff_version_id) as [b0|].
    + destruct (cr_id b0 <? cr_id x); [intros [= <-]; auto|].
      intros [??]%IH. auto.
    + intros [= <-]; auto.
  - intros [??]%IH. auto.
Qed.

(** The two outcomes of [upsert_calc_run]. *)
Lemma upsert_calc_run_cases (db : database) (customer_id tariff_version_id : Z)
    (start end_ : datetime) (checksum : string) (res : calc_result) :
  (∃ row, latest_run (calc_runs db) customer_id tariff_version_id = Some row
          ∧ run_records checksum start end_ row
          ∧ upsert_calc_run db customer_id tariff_version_id start end_ checksum res
            = (cr_id row, db))
  ∨ upsert_calc_run db customer_id tariff_version_id start end_ checksum res
    = (next_run_id (calc_runs db),
       add_run db (new_run db customer_id tariff_version_id start end_ checksum res)).
Proof.
  unfold upsert_calc_run.
  destruct (latest_run (calc_runs db) customer_id tariff_version_id) as [row|];
    [|by right].
  destruct (result_summary_json row) as [meta|] eqn:Em; [|by right].
  case_bool_decide as Hm; [|by right].
  left. exists row. split; [done|]. split; [|done]. by exists meta.
Qed.

(** X18: [upsert_calc_run] returns the id of a row that is in the table
    afterwards, belongs to the customer and tariff version, and records the
    checksum and the period; it changes no existing row: either the
    database is as before, or one row holding the given result was added
    at the end; the tariff versions and the readings are never touched. *)
Theorem upsert_calc_run_stores (db : database) (customer_id tariff_version_id : Z)
    (start end_ : datetime) (checksum : string) (res : calc_result) :
  let out := upsert_calc_run db customer_id tariff_version_id start end_ checksum res in
  (∃ row, row ∈ calc_runs out.2 ∧ cr_id row = out.1
          ∧ run_of customer_id tariff_version_id row
          ∧ run_records checksum start end_ row)
  ∧ (out.2 = db
     ∨ ∃ row, out.2 = add_run db row ∧ cr_id row = out.1
              ∧ (summary_result <$> result_summary_json row) = Some res)
  ∧ tariff_versions out.2 = tariff_versions db
  ∧ meter_reading_rows out.2 = meter_reading_rows db.
Proof.
  cbn zeta.
  destruct (upsert_calc_run_cases db customer_id tariff_version_id start end_ checksum res)
    as [(row & Hl & Hrec & ->)| ->]; cbn [fst snd].
  - apply latest_run_run_of in Hl as [Hin Hrun].
    split; [by exists row|]. split; [by left|done].
  - split; [|split; [|done]].
    + eexists. split; [apply elem_of_app; right; by left|].
      split; [done|]. split; [done|]. by eexists.
    + right. eexists. split; [done|]. by split.
Qed.

(** X19: once a run is stored for a customer and tariff version, [get_bill]
    answers with it whatever period it is asked for: after
    [calculate_and_store], [get_bill] for any start and end returns the id
    of that run and leaves the database alone, and when the run was newly
    stored, the bill it returns is the one just calculated. *)
Theorem get_bill_returns_stored_run (rt : runtime) (sha256_hexdigest : string → string)
    (repr_json : tariff → string) (str_decimal : Q → string) (str_int : Z → string)
    (req : CalcStoreRequest) (db : database) (start' end' : datetime) :
  let out := calculate_and_store rt sha256_hexdigest repr_json str_decimal str_int req db in
  let got := get_bill rt sha256_hexdigest repr_json str_decimal str_int
               (req_customer_id req) start' end' (req_tariff_version_id req) out.2 in
  got.2 = out.2
  ∧ got.1.1 = resp_calc_run_id out.1
  ∧ (calc_runs out.2 ≠ calc_runs db → got.1.2 = resp_result out.1).
Proof.
  cbn zeta. unfold calculate_and_store.
  set (checksum := compute_checksum _ _ _ _ db _ _ _ _).
  set (res := calculate_bill rt db _ _ _ _).
  destruct (upsert_calc_run_cases db (req_customer_id req) (req_tariff_version_id req)
              (req_start req) (req_end req) checksum res)
    as [(row & Hl & (meta & Hm & _) & ->)| ->]; cbn [fst snd resp_calc_run_id resp_result].
  - unfold get_bill. rewrite Hl, Hm. by repeat split.
  - unfold get_bill. cbn [add_run calc_runs].
    pose proof (latest_run_new (calc_runs db)
                  (new_run db (req_customer_id req) (req_tariff_version_id req)
                     (req_start req) (req_end req) checksum res) eq_refl) as Hn.
    cbn [new_run cr_customer_id cr_tariff_version_id] in Hn. rewrite Hn.
    by repeat split.
Qed.

Lemma get_bill_returns_stored_run_witness :
  let req := {| req_customer_id := 1; req_tariff_version_id := 7;
                req_start := example.start; req_end := example.end_ |} in
  let db := with_tariff example.db 7 (example.doc [example.energy]) in
  let out := calculate_and_store py.cpython (λ s, s) (λ _, "") (λ _, "") (λ _, "") req db in
  let got := get_bill py.cpython (λ s, s) (λ _, "") (λ _, "") (λ _, "")
               1 (example.at_ 2024 2 1 0 0) (example.at_ 2024 3 1 0 0) 7 out.2 in
  calc_runs out.2 ≠ calc_runs db ∧ got.1.2 = resp_result out.1.
Proof.
  intros req db out got.
  assert (H : calc_runs out.2 ≠ calc_runs db) by (vm_compute; discriminate).
  split; [exact H|].
  exact (proj2 (proj2 (get_bill_returns_stored_run py.cpython (λ s, s) (λ _, "")
                         (λ _, "") (λ _, "") req db (example.at_ 2024 2 1 0 0)
                         (example.at_ 2024 3 1 0 0))) H).
Defined.

(** ** Date ranges *)

Lemma date_cmp_lex (a b : date) :
  cal.date_cmp a b = lex_cmp [year a; month a; day a] [year b; month b; day b].
Proof.
  unfold cal.date_cmp. cbn [lex_cmp]. repeat (destruct (_ ?= _); try reflexivity).
Qed.

Lemma date_leb_refl (a : date) : cal.date_leb a a = true.
Proof. unfold cal.date_leb. by rewrite date_cmp_lex, lex_cmp_refl. Qed.

Lemma date_range_reversed (d frm to : date) :
  cal.date_ltb to frm = true →
  cal.date_leb frm d && cal.date_leb d to = false.
Proof.
  unfold cal.date_ltb, cal.date_leb. rewrite !date_cmp_lex. intros H.
  destruct (lex_cmp [year frm; month frm; day frm] [year d; month d; day d]) eqn:E1;
    destruct (lex_cmp [year d; month d; day d] [year to; month to; day to]) eqn:E2;
    try done; exfalso;
    (assert (Hx : lex_cmp [year frm; month frm; day frm] [year to; month to; day to] ≠ Gt)
       by (eapply lex_cmp_le_trans; [by rewrite E1|by rewrite E2]));
    (assert (Hy : lex_cmp [year frm; month frm; day frm]
                    [year frm; month frm; day frm] = Lt)
       by (eapply lex_cmp_le_lt_trans; [exact Hx|];
           by destruct (lex_cmp [year to; month to; day to] _));
     by rewrite lex_cmp_refl in Hy).
Qed.

(** X20: the bounds of a date range are inclusive: the first and the last
    day of a range are inside it; a range that ends before it starts holds
    no date, and a range with a missing or unreadable date is passed over
    without hiding the ranges after it. *)
Theorem date_range_bounds (d frm to : date) (rest : list date_window) :
  let range := {| w_from := Some frm; w_to := Some to |} in
  (cal.date_leb frm to = true →
   _in_date_ranges frm (range :: rest) = true ∧ _in_date_ranges to (range :: rest) = true)
  ∧ (cal.date_ltb to frm = true →
     _in_date_ranges d (range :: rest) = _in_date_ranges d rest)
  ∧ (∀ r, w_from r = None ∨ w_to r = None →
          _in_date_ranges d (r :: rest) = _in_date_ranges d rest).
Proof.
  cbn zeta. split; [|split].
  - intros H. cbn. by rewrite !date_leb_refl, H.
  - intros H. cbn. by rewrite (date_range_reversed d frm to H).
  - intros r [H|H]; cbn; rewrite H; [done|]. by destruct (w_from r).
Qed.

Lemma date_range_bounds_witness :
  let jan1 := {| year := 2024; month := 1; day := 1 |} in
  let jan31 := {| year := 2024; month := 1; day := 31 |} in
  cal.date_leb jan1 jan31 = true
  ∧ _in_date_ranges jan31 [ {| w_from := Some jan1; w_to := Some jan31 |} ] = true.
Proof.
  intros jan1 jan31. split; [reflexivity|].
  exact (proj2 (proj1 (date_range_bounds jan1 jan1 jan31 []) eq_refl)).
Defined.

Lemma latest_run_is_greatest_witness :
  let run (id : Z) := {| cr_id := id; cr_customer_id := 1; cr_tariff_version_id := 7;
                         cr_status := "completed"; result_summary_json := None |} in
  (run 1 ∈ [run 2; run 1] ∧ run_of 1 7 (run 1)) ∧ cr_id (run 1) ≤ 2.
Proof.
  intros run.
  assert (Hin : run 1 ∈ [run 2; run 1]) by (right; left).
  assert (Hrun : run_of 1 7 (run 1)) by (by split).
  split; [by split|].
  exact (proj2 (proj2 (latest_run_is_greatest [run 2; run 1] 1 7)) (run 1) Hin Hrun).
Defined.
